(** * Any2Any front end: conversion orchestration

    A shallow embedding of the browser script [static/js/app.js] of the
    Any2Any converter.  The file concatenates three revisions of the page
    script; the current one (the last IIFE: resolver with audio/video/data
    categories, local conversion with pdf.js, remote conversion with job
    polling) is modelled at top level, the earlier one (v1 resolver and the
    synchronous "legacy" submission handler) in [Module V1].

    Modelling choices:
    - JS strings are [string]; [toLowerCase] is modelled on ASCII.
    - JS numbers are IEEE doubles ([PrimFloat.float]); integer results of
      [Math.round] are read back as [Z].
    - The async click handler and [convertLocal] run in a writer/exception
      monad [M]: every DOM write and every outgoing request is an [event]
      appended to the trace, a JS exception is [Throw].
    - The browser primitives used by the local engine (file reading, pdf.js,
      canvas encoding, JSZip, object URLs) form an abstract [Platform]; each
      may fail, which models every way the real primitive can throw. *)

From Stdlib Require Import String Ascii List ZArith Bool Lia DecimalNat.
From Stdlib Require Import PrimFloat Floats.
Import ListNotations.

Open Scope list_scope.
Open Scope string_scope.
#[global] Set Warnings "-inexact-float".

(** ** JS exceptions and the handler monad *)

Inductive js_error :=
| JSTypeError (msg : string)
| JSError (msg : string)
| JSSyntaxError.

Inductive exc (A : Type) :=
| Ret (a : A)
| Throw (e : js_error).
Arguments Ret {A} a.
Arguments Throw {A} e.

(** Integer-valued JS numbers, as produced by [Math.round], [Math.min] and
    [Math.max] on doubles. *)
Inductive num :=
| NFin (z : Z)
| NPosInf
| NNegInf
| NNaN.

(** Text written to [statusLine.textContent]. *)
Inductive status_text :=
| STEmpty                                  (* "" *)
| STUploading                              (* "Uploading…" *)
| STProcessing                             (* "Processing…" *)
| STPreparingPdf                           (* "Preparing PDF…" *)
| STDecoding                               (* "Decoding image…" *)
| STDone                                   (* "Done." *)
| STPdfProgress (pct : num) (done pages : nat) (* `Processing… ${pct}% (${done}/${pages})` *)
| STPollMsg (msg : string) (pct : num)     (* `${s.msg} (${pct}%)` *)
| STPollProcessing (pct : num).            (* `Processing… (${pct}%)` *)

(** What [resultBox] shows. *)
Inductive result_view :=
| RNone
| RLocalDone (url filename : string)                (* pill ok, local download *)
| RDone (download : option string) (filename : string) (* pill ok, server download *)
| RReady                                            (* "Download ready." *)
| RErr (msg : string).                              (* pill err *)

Inductive event :=
| EBar (w : num)                       (* bar.style.width = w + "%" *)
| EStatus (t : status_text)
| EResult (r : result_view)
| EIndDisplay (shown : bool)           (* barInd.style.display block / none *)
| EIndIndeterminate (on : bool)        (* barInd.classList add / remove "indeterminate" *)
| EWarn                                (* console.warn of the local failure *)
| ECallLocal (src tgt : string)        (* convertLocal(file, src, tgt) entered *)
| EXhrSend (fields : list (string * string)) (* POST /api/convert with the form data *)
| ETick (t : Z)                        (* poll() invoked at time t (ms) *)
| EFetch (url : string)                (* fetch of a status URL *)
| ESetInterval (ms : Z)
| EClearInterval.

Definition M (A : Type) : Type := (list event * exc A)%type.

Definition ret {A} (a : A) : M A := ([], Ret a).

Definition bind {A B} (m : M A) (f : A -> M B) : M B :=
  match m with
  | (w, Ret a) => let (w', r) := f a in ((w ++ w')%list, r)
  | (w, Throw e) => (w, Throw e)
  end.

Definition emit (e : event) : M unit := ([e], Ret tt).

Definition throw {A} (e : js_error) : M A := ([], Throw e).

Definition lift {A} (r : exc A) : M A := ([], r).

(** [try { m } catch (err) { h err }] *)
Definition try_catch {A} (m : M A) (h : js_error -> M A) : M A :=
  match m with
  | (w, Ret a) => (w, Ret a)
  | (w, Throw e) => let (w', r) := h e in ((w ++ w')%list, r)
  end.

Notation "x <- m ;; k" := (bind m (fun x => k))
  (at level 61, m at next level, right associativity).
Notation "m ;;; k" := (bind m (fun _ => k))
  (at level 61, right associativity).

(** ** Strings *)

Definition lower_ascii (c : ascii) : ascii :=
  let n := nat_of_ascii c in
  if ((65 <=? n) && (n <=? 90))%nat then ascii_of_nat (n + 32)%nat else c.

(** [s.toLowerCase()] *)
Definition toLowerCase (s : string) : string :=
  string_of_list_ascii (map lower_ascii (list_ascii_of_string s)).

(** Splits a reversed character list at its first dot, i.e. the original
    string at its last dot: (reversed part after, reversed part before). *)
Fixpoint split_dot_rev (r : list ascii) : option (list ascii * list ascii) :=
  match r with
  | [] => None
  | c :: r' =>
      if Ascii.eqb c "." then Some ([], r')
      else match split_dot_rev r' with
           | Some (a, b) => Some (c :: a, b)
           | None => None
           end
  end.

(** The match of [/\.[^.]+$/] in [s]: the text before the last dot and the
    (non-empty, dot-free) text after it. *)
Definition ext_match (s : string) : option (string * string) :=
  match split_dot_rev (rev (list_ascii_of_string s)) with
  | Some ((_ :: _) as ra, rb) =>
      Some (string_of_list_ascii (rev rb), string_of_list_ascii (rev ra))
  | _ => None
  end.

(** [function extOf(name){ const m=/\.[^.]+$/.exec(name||"");
                            return m?m[0].slice(1).toLowerCase():""; }] *)
Definition extOf (name : string) : string :=
  match ext_match name with
  | Some (_, a) => toLowerCase a
  | None => ""
  end.

(** [name.replace(/\.[^.]+$/, "")] *)
Definition strip_ext (name : string) : string :=
  match ext_match name with
  | Some (b, _) => b
  | None => name
  end.

(** [name.replace(/\.pdf$/i, rep)] (the replacement holds no [$] pattern). *)
Definition replace_pdf_suffix (name rep : string) : string :=
  match rev (list_ascii_of_string name) with
  | f :: d :: p :: dot :: rb =>
      if Ascii.eqb dot "." &&
         String.eqb (toLowerCase (string_of_list_ascii [p; d; f])) "pdf"
      then string_of_list_ascii (rev rb) ++ rep
      else name
  | _ => name
  end.

Fixpoint string_of_uint (u : Decimal.uint) : string :=
  match u with
  | Decimal.Nil => ""
  | Decimal.D0 u => "0" ++ string_of_uint u
  | Decimal.D1 u => "1" ++ string_of_uint u
  | Decimal.D2 u => "2" ++ string_of_uint u
  | Decimal.D3 u => "3" ++ string_of_uint u
  | Decimal.D4 u => "4" ++ string_of_uint u
  | Decimal.D5 u => "5" ++ string_of_uint u
  | Decimal.D6 u => "6" ++ string_of_uint u
  | Decimal.D7 u => "7" ++ string_of_uint u
  | Decimal.D8 u => "8" ++ string_of_uint u
  | Decimal.D9 u => "9" ++ string_of_uint u
  end.

(** [String(n)] for a non-negative integer. *)
Definition string_of_nat (n : nat) : string := string_of_uint (Nat.to_uint n).

Definition string_of_Z (z : Z) : string :=
  match z with
  | Zneg p => "-" ++ string_of_nat (Pos.to_nat p)
  | _ => string_of_nat (Z.to_nat z)
  end.

(** [arr.includes(x)] on an array of strings. *)
Definition includes (xs : list string) (x : string) : bool :=
  existsb (String.eqb x) xs.

(** JS truthiness of an optional string field ([undefined] or [""] is falsy). *)
Definition truthy_str (o : option string) : bool :=
  match o with
  | Some s => negb (String.eqb s "")
  | None => false
  end.

(** [a || b] on optional string fields. *)
Definition or_str (o : option string) (dflt : string) : string :=
  match o with
  | Some s => if String.eqb s "" then dflt else s
  | None => dflt
  end.

(** ** Capability table (current revision) *)

Definition IMAGE_IN := ["jpg";"jpeg";"png";"webp";"gif";"tiff";"bmp";"ico";"pdf"].
Definition AV_IN    := ["mp3";"wav";"aac";"flac";"ogg";"mp4";"mkv";"mov";"webm"].
Definition DOC_IN   := ["pdf";"doc";"docx";"ppt";"pptx";"xls";"xlsx";"odt";"odp";"ods";"rtf";"txt"].
Definition DATA_IN  := ["csv";"xlsx";"txt";"vcf";"srt";"vtt";"json";"yaml";"yml"].

Definition IMAGE_OUT := IMAGE_IN.
Definition AV_OUT    := AV_IN.
Definition DOC_OUT   := ["pdf";"docx";"pptx";"xlsx";"odt";"odp";"ods"].
Definition DATA_OUT  := ["phonecsv";"csv";"vcf";"srt";"vtt";"csv_from_json";"json_from_csv";"json_from_yaml";"yaml_from_json"].

Definition guessCategory (ext : string) : string :=
  if String.eqb ext "pdf" then "doc"
  else if includes IMAGE_IN ext then "image"
  else if includes AV_IN ext then
    (if includes ["mp4";"mkv";"mov";"webm"] ext then "video" else "audio")
  else if includes DOC_IN ext then "doc"
  else if includes DATA_IN ext then "data"
  else "doc".

(** [arr.filter(x => x !== ext)] *)
Definition without (ext : string) (xs : list string) : list string :=
  filter (fun x => negb (String.eqb x ext)) xs.

(** [[...new Set(xs)]]: duplicates removed, first occurrences kept. *)
Fixpoint dedup_aux (seen : list string) (xs : list string) : list string :=
  match xs with
  | [] => []
  | x :: xs' => if includes seen x then dedup_aux seen xs'
                else x :: dedup_aux (seen ++ [x])%list xs'
  end.
Definition dedup (xs : list string) : list string := dedup_aux [] xs.

Definition suggestedTargets (ext cat : string) : list string :=
  if String.eqb ext "pdf" then ["jpg";"png";"webp";"docx"]
  else if String.eqb cat "image" then without ext ["jpg";"png";"webp";"pdf"]
  else if String.eqb cat "video" then ["mp4";"webm";"mp3"]
  else if String.eqb cat "audio" then without ext ["mp3";"wav";"aac";"flac"]
  else if String.eqb cat "doc" then without ext ["pdf";"docx";"pptx";"xlsx";"odt";"odp";"ods"]
  else if String.eqb cat "data" then ["phonecsv";"csv";"vcf";"vtt";"srt";"csv_from_json";"json_from_csv"]
  else [].

Definition allTargetsFor (ext cat : string) : list string :=
  if String.eqb ext "pdf" then
    let imgs := without "pdf" IMAGE_OUT in dedup (imgs ++ ["docx"])%list
  else if String.eqb cat "image" then without ext IMAGE_OUT
  else if String.eqb cat "video" || String.eqb cat "audio" then without ext AV_OUT
  else if String.eqb cat "data" then DATA_OUT
  else without ext DOC_OUT.

(** ** [LOCAL_OK] and [canDoLocal]

    [LOCAL_OK] is an object literal, so a property lookup that misses its own
    keys continues on [Object.prototype]. *)

Inductive jsval :=
| JUndefined
| JNull
| JSet (elems : list string)          (* a Set of strings *)
| JFunction (fname : string)          (* a built-in function object *)
| JObjectPrototype.                   (* Object.prototype itself *)

Definition LOCAL_OK : list (string * jsval) :=
  [("pdf",  JSet ["jpg";"png";"webp"]);
   ("jpg",  JSet ["png";"webp"]);
   ("jpeg", JSet ["png";"webp"]);
   ("png",  JSet ["jpg";"webp"]);
   ("webp", JSet ["jpg";"png"]);
   ("bmp",  JSet ["jpg";"png";"webp"]);
   ("gif",  JSet ["jpg";"png";"webp"]);
   ("tiff", JSet ["jpg";"png";"webp"]);
   ("ico",  JSet ["png";"webp"])].

(** The properties of [Object.prototype]. *)
Definition OBJECT_PROTOTYPE : list (string * jsval) :=
  [("constructor", JFunction "Object");
   ("__proto__", JObjectPrototype);
   ("hasOwnProperty", JFunction "hasOwnProperty");
   ("isPrototypeOf", JFunction "isPrototypeOf");
   ("propertyIsEnumerable", JFunction "propertyIsEnumerable");
   ("toString", JFunction "toString");
   ("toLocaleString", JFunction "toLocaleString");
   ("valueOf", JFunction "valueOf");
   ("__defineGetter__", JFunction "__defineGetter__");
   ("__defineSetter__", JFunction "__defineSetter__");
   ("__lookupGetter__", JFunction "__lookupGetter__");
   ("__lookupSetter__", JFunction "__lookupSetter__")].

Fixpoint assoc (k : string) (l : list (string * jsval)) : option jsval :=
  match l with
  | [] => None
  | (k', v) :: l' => if String.eqb k k' then Some v else assoc k l'
  end.

(** [LOCAL_OK[k]] *)
Definition LOCAL_OK_get (k : string) : jsval :=
  match assoc k LOCAL_OK with
  | Some v => v
  | None => match assoc k OBJECT_PROTOTYPE with
            | Some v => v
            | None => JUndefined
            end
  end.

(** The method [v.has], when [v] has one: only Sets do (functions and
    [Object.prototype] find no [has] on their prototype chains). *)
Definition has_method (v : jsval) : option (string -> bool) :=
  match v with
  | JSet xs => Some (includes xs)
  | _ => None
  end.

(** [function canDoLocal(srcExt, targetExt){
       return LOCAL_OK[srcExt]?.has(targetExt) || false; }] *)
Definition canDoLocal (srcExt targetExt : string) : exc bool :=
  match LOCAL_OK_get srcExt with
  | JUndefined | JNull => Ret false          (* undefined || false *)
  | v => match has_method v with
         | Some has => Ret (has targetExt)     (* b || false = b *)
         | None => Throw (JSTypeError "LOCAL_OK[srcExt]?.has is not a function")
         end
  end.

(** ** JS numbers *)

(** The double nearest to a natural number (exact below 2^53). *)
Definition js_of_nat (n : nat) : float :=
  SF2Prim (SpecFloat.binary_normalize prec emax (Z.of_nat n) 0 false).

(** JS truthiness of a number: [0], [-0] and [NaN] are falsy. *)
Definition js_truthy_num (x : float) : bool :=
  match Prim2SF x with
  | S754_zero _ | S754_nan => false
  | _ => true
  end.

(** [Math.round] of the finite double [(-1)^s * m * 2^e]: the integer
    [floor(x + 1/2)], computed exactly. *)
Definition round_sf (s : bool) (m : positive) (e : Z) : Z :=
  let sm := if s then Zneg m else Zpos m in
  if (0 <=? e)%Z then (sm * 2 ^ e)%Z
  else ((2 * sm + 2 ^ (- e)) / 2 ^ (1 - e))%Z.

(** [Math.round(x)] *)
Definition js_round (x : float) : num :=
  match Prim2SF x with
  | S754_zero _ => NFin 0
  | S754_infinity false => NPosInf
  | S754_infinity true => NNegInf
  | S754_nan => NNaN
  | S754_finite s m e => NFin (round_sf s m e)
  end.

(** [Math.min(a, b)] and [Math.max(a, b)] on integer-valued numbers. *)
Definition js_min (a b : num) : num :=
  match a, b with
  | NNaN, _ | _, NNaN => NNaN
  | NNegInf, _ | _, NNegInf => NNegInf
  | NPosInf, x | x, NPosInf => x
  | NFin x, NFin y => NFin (Z.min x y)
  end.

Definition js_max (a b : num) : num :=
  match a, b with
  | NNaN, _ | _, NNaN => NNaN
  | NPosInf, _ | _, NPosInf => NPosInf
  | NNegInf, x | x, NNegInf => x
  | NFin x, NFin y => NFin (Z.max x y)
  end.

(** [Math.max(0, Math.min(100, Math.round(s.percent || 0)))] where the
    [percent] field of the status JSON is absent/[null] ([None]) or a JSON
    number. *)
Definition relay_pct (percent : option float) : num :=
  let v := match percent with
           | Some x => if js_truthy_num x then x else 0%float
           | None => 0%float
           end in
  js_max (NFin 0) (js_min (NFin 100) (js_round v)).

(** [Math.round((done/pages)*100)] in double arithmetic. *)
Definition pdf_pct (done pages : nat) : num :=
  js_round (PrimFloat.mul (PrimFloat.div (js_of_nat done) (js_of_nat pages)) 100%float).

(** ** Local conversion engine *)

Record File := { file_name : string; file_id : nat }.

Inductive canvas :=
| CPage (i : nat)            (* the canvas page [i] of the PDF was rendered on *)
| CBitmap.                   (* the canvas the decoded image was drawn on *)

(** Browser primitives used by [convertLocal]; blobs and URLs are strings. *)
Record Platform := {
  arrayBuffer : File -> exc nat;              (* await file.arrayBuffer() *)
  getDocument : nat -> exc nat;               (* await PDFJS.getDocument({data}).promise, its numPages *)
  getPage : nat -> exc unit;                  (* await pdf.getPage(i) *)
  renderPage : nat -> exc unit;               (* await page.render(...).promise *)
  createImageBitmap : File -> exc unit;       (* await createImageBitmap(file) *)
  toBlob : canvas -> option string -> float -> exc string; (* canvas.toBlob(res, mime, q) *)
  generateAsync : list (string * string) -> exc string;    (* await zip.generateAsync({type:"blob"}) *)
  createObjectURL : string -> exc string      (* URL.createObjectURL(blob) *)
}.

Record LocalOut := { out_url : string; out_filename : string }.

(** [{jpg:"image/jpeg", png:"image/png", webp:"image/webp"}[targetExt]] *)
Definition mime_of (targetExt : string) : option string :=
  if String.eqb targetExt "jpg" then Some "image/jpeg"
  else if String.eqb targetExt "png" then Some "image/png"
  else if String.eqb targetExt "webp" then Some "image/webp"
  else None.

(** [mime === "image/jpeg" ? 0.92 : 0.95] *)
Definition quality_of (mime : option string) : float :=
  match mime with
  | Some "image/jpeg" => 0.92%float
  | _ => 0.95%float
  end.

Definition page_entry_name (i : nat) (targetExt : string) : string :=
  "page-" ++ string_of_nat i ++ "." ++ targetExt.

(** The body of [for (let i = 1; i <= pages; i++){ ... }], run [k] more
    times from page [i] with [done] pages finished and archive [zip]. *)
Fixpoint pdf_pages (P : Platform) (targetExt : string) (pages : nat)
    (k i done : nat) (zip : list (string * string)) : M (list (string * string)) :=
  match k with
  | O => ret zip
  | S k' =>
      _ <- lift (getPage P i) ;;
      _ <- lift (renderPage P i) ;;
      let mime := mime_of targetExt in
      blob <- lift (toBlob P (CPage i) mime (quality_of mime)) ;;
      let zip' := (zip ++ [(page_entry_name i targetExt, blob)])%list in
      let done' := S done in
      let pct := pdf_pct done' pages in
      emit (EBar pct) ;;;
      emit (EStatus (STPdfProgress pct done' pages)) ;;;
      pdf_pages P targetExt pages k' (S i) done' zip'
  end.

Definition convertLocal (P : Platform) (file : File) (srcExt targetExt : string)
    : M LocalOut :=
  if String.eqb srcExt "pdf" && includes ["jpg";"png";"webp"] targetExt then
    emit (EStatus STPreparingPdf) ;;;
    buf <- lift (arrayBuffer P file) ;;
    pages <- lift (getDocument P buf) ;;
    zip <- pdf_pages P targetExt pages pages 1 0 [] ;;
    zipBlob <- lift (generateAsync P zip) ;;
    url <- lift (createObjectURL P zipBlob) ;;
    let name := replace_pdf_suffix (file_name file) ("_" ++ targetExt ++ ".zip") in
    ret {| out_url := url; out_filename := name |}
  else if includes ["jpg";"jpeg";"png";"webp";"gif";"tiff";"bmp";"ico"] srcExt &&
          includes ["jpg";"png";"webp"] targetExt then
    emit (EStatus STDecoding) ;;;
    _ <- lift (createImageBitmap P file) ;;
    emit (EBar (NFin 30)) ;;;
    emit (EBar (NFin 60)) ;;;
    let mime := mime_of targetExt in
    blob <- lift (toBlob P CBitmap mime (quality_of mime)) ;;
    url <- lift (createObjectURL P blob) ;;
    let base := strip_ext (file_name file) in
    emit (EBar (NFin 100)) ;;;
    emit (EStatus STDone) ;;;
    ret {| out_url := url; out_filename := base ++ "." ++ targetExt |}
  else throw (JSError "Local conversion not supported for this format.").

(** ** Convert click (current revision) *)

(** [convertBtn.addEventListener("click", async () => { ... })] up to the
    [xhr.send(fd)] of the server path; the response is handled later by
    [on_submit_done].  The elapsed-time label of the local result is left
    out. *)
Definition click (P : Platform) (disabled localChecked : bool)
    (file : option File) (target : string) : M unit :=
  if disabled then ret tt else
  match file with
  | None => ret tt
  | Some f =>
    if String.eqb target "" then ret tt else
    emit (EResult RNone) ;;;
    emit (EStatus STEmpty) ;;;
    emit (EBar (NFin 0)) ;;;
    emit (EIndDisplay false) ;;;
    emit (EIndIndeterminate false) ;;;
    let srcExt := extOf (file_name f) in
    (* localToggle.checked && canDoLocal(srcExt, target) *)
    local <- (if localChecked then lift (canDoLocal srcExt target) else ret false) ;;
    finished <-
      (if local then
         try_catch
           (emit (ECallLocal srcExt target) ;;;
            out <- convertLocal P f srcExt target ;;
            emit (EResult (RLocalDone (out_url out) (out_filename out))) ;;;
            ret true)
           (fun _ => emit EWarn ;;; ret false)
       else ret false) ;;
    if finished then ret tt
    else
      emit (EStatus STUploading) ;;;
      emit (EXhrSend [("file", file_name f); ("target", target)])
  end.

(** ** Remote conversion: job polling *)

(** Parsed JSON of a status response; absent fields are [None]. *)
Record PollStatus := {
  ps_status : option string;
  ps_percent : option float;
  ps_msg : option string;
  ps_download : option string;
  ps_filename : option string;
  ps_error : option string
}.

(** How one [fetch(`/api/status/${jobId}`)] ends: rejected, or a response
    with its HTTP status and its body ([None] when [r.json()] fails or the
    JSON is not an object). *)
Inductive FetchOutcome :=
| FRejected
| FResponse (code : Z) (body : option PollStatus).

Definition is_ok (code : Z) : bool := ((200 <=? code) && (code <=? 299))%Z.

Definition status_is (s : PollStatus) (x : string) : bool :=
  match ps_status s with
  | Some st => String.eqb st x
  | None => false
  end.

Definition cleared (w : list event) : bool :=
  existsb (fun e => match e with EClearInterval => true | _ => false end) w.

(** [poll()]: the fetch is issued when the call starts. *)
Definition poll_start (jobId : string) (t : Z) : M unit :=
  emit (ETick t) ;;;
  emit (EFetch ("/api/status/" ++ jobId)).

(** The rest of [poll()], once the fetch settles. *)
Definition poll_complete (o : FetchOutcome) : M unit :=
  try_catch
    (match o with
     | FRejected => throw (JSTypeError "Failed to fetch")
     | FResponse code body =>
       if negb (is_ok code) then throw (JSError ("HTTP " ++ string_of_Z code)) else
       match body with
       | None => throw JSSyntaxError
       | Some s =>
         let pct := relay_pct (ps_percent s) in
         emit (EBar pct) ;;;
         emit (EStatus (match ps_msg s with
                        | Some m => if String.eqb m "" then STPollProcessing pct
                                    else STPollMsg m pct
                        | None => STPollProcessing pct
                        end)) ;;;
         if status_is s "done" then
           emit EClearInterval ;;;
           emit (EResult (RDone (ps_download s) (or_str (ps_filename s) "file"))) ;;;
           emit (EStatus STDone)
         else if status_is s "error" then
           emit EClearInterval ;;;
           emit (EResult (RErr (or_str (ps_error s) "Conversion failed."))) ;;;
           emit (EStatus STEmpty)
         else ret tt
       end
     end)
    (fun _ => ret tt).    (* transient fetch errors are ignored *)

(** The interval ticks [j], [j+1], ... at [1000*j] ms; each poll is taken to
    settle before the next tick. *)
Fixpoint poll_ticks (jobId : string) (j : nat) (outs : list FetchOutcome) : M unit :=
  match outs with
  | [] => ret tt
  | o :: rest =>
      let m := poll_complete o in
      poll_start jobId (1000 * Z.of_nat j) ;;;
      m ;;;
      (if cleared (fst m) then ret tt else poll_ticks jobId (S j) rest)
  end.

(** [poll(); pollTimer = setInterval(poll, 1000);] with the outcomes of the
    successive polls. *)
Definition start_polling (jobId : string) (o0 : FetchOutcome)
    (rest : list FetchOutcome) : M unit :=
  let m := poll_complete o0 in
  poll_start jobId 0 ;;;
  emit (ESetInterval 1000) ;;;
  m ;;;
  (if cleared (fst m) then ret tt else poll_ticks jobId 1 rest).

(** Parsed JSON of a submission response. *)
Record SubmitBody := {
  sb_job_id : option string;
  sb_download : option string;
  sb_filename : option string;
  sb_detail : option string;
  sb_process_time : option string
}.

(** The outcome of [JSON.parse(xhr.responseText)]: it throws, it yields
    [null], or it yields a value whose fields are then read (a field the
    value lacks reads as [undefined]). *)
Inductive JsonBody :=
| BParseError
| BNull
| BValue (b : SubmitBody).

Definition is_json_null (body : JsonBody) : bool :=
  match body with BNull => true | _ => false end.

(** [data.job_id] of a submission response, where [data] stays [{}] when
    the parse throws; [None] on [null], where reading it throws instead. *)
Definition job_of (body : JsonBody) : option string :=
  match body with BValue b => sb_job_id b | _ => None end.

(** Reading [job_id] of [null]. *)
Definition null_job_id_error : js_error :=
  JSTypeError "Cannot read properties of null (reading 'job_id')".

(** The error message of a failed submission:
    [let msg = xhr.responseText || `HTTP ${xhr.status}`;
     try { msg = JSON.parse(xhr.responseText).detail || msg; } catch {}];
    on [null] reading [detail] throws inside the [try], so [msg] stays. *)
Definition submit_error_msg (status : Z) (body : JsonBody)
    (responseText : string) : string :=
  let msg0 := if String.eqb responseText "" then "HTTP " ++ string_of_Z status
              else responseText in
  match body with
  | BValue b => or_str (sb_detail b) msg0
  | _ => msg0
  end.

(** [xhr.onreadystatechange] at [readyState === DONE] (current revision);
    [body] is the outcome of [JSON.parse(xhr.responseText)].  On [null],
    [data.job_id] throws a [TypeError] out of the handler. *)
Definition on_submit_done (status : Z) (body : JsonBody)
    (responseText : string) (o0 : FetchOutcome) (rest : list FetchOutcome)
    : M unit :=
  if (status =? 200)%Z || (status =? 202)%Z then
    match body with
    | BNull => throw null_job_id_error
    | _ =>
      let job_id := job_of body in
      if negb (truthy_str job_id) then
        emit (EResult (RErr "Unexpected server response.")) ;;;
        emit (EIndIndeterminate false) ;;;
        emit (EIndDisplay false)
      else
        let jobId := or_str job_id "" in
        emit (EIndIndeterminate false) ;;;
        emit (EIndDisplay false) ;;;
        start_polling jobId o0 rest
    end
  else
    emit (EResult (RErr (submit_error_msg status body responseText))) ;;;
    emit (EStatus STEmpty) ;;;
    emit (EIndIndeterminate false) ;;;
    emit (EIndDisplay false).

(** ** Earlier revision *)

Module V1.

Definition IMAGE_IN := ["jpg";"jpeg";"png";"webp";"tiff";"bmp"].
Definition DOC_IN := ["pdf"].

Definition guessCategory (ext : string) : string :=
  if includes DOC_IN ext then "doc"
  else if includes IMAGE_IN ext then "image"
  else "doc".

Definition suggestedTargets (ext : string) : list string :=
  if includes IMAGE_IN ext then ["pdf";"docx"]
  else if String.eqb ext "pdf" then ["jpg";"png";"webp";"docx"]
  else [].

Definition allTargetsFor (ext : string) : list string :=
  if includes IMAGE_IN ext then ["pdf";"docx"]
  else if String.eqb ext "pdf" then ["jpg";"png";"webp";"docx"]
  else [].

(** [xhr.onreadystatechange] at [readyState === DONE] of the synchronous
    (legacy) server path.  A body that does not parse, or parses to
    [null] (reading [process_time] throws), lands in the [catch]:
    "Download ready.".  [escapeHtml(data.filename)] shows [String(undefined)]
    for a missing filename. *)
Definition on_submit_done (status : Z) (body : JsonBody)
    (responseText : string) : M unit :=
  emit (EIndIndeterminate false) ;;;
  emit (EIndDisplay false) ;;;
  if (status =? 200)%Z then
    match body with
    | BValue b =>
      emit (EStatus STDone) ;;;
      emit (EResult (RDone (sb_download b)
                      (match sb_filename b with Some f => f | None => "undefined" end)))
    | _ =>
      emit (EStatus STDone) ;;;
      emit (EResult RReady)
    end
  else
    emit (EResult (RErr (submit_error_msg status body responseText))) ;;;
    emit (EStatus STEmpty).

End V1.

(** ** Concrete platforms and files for the witnesses *)

(** Every browser primitive succeeds; the PDF has [pages] pages. *)
Definition ok_platform (pages : nat) : Platform := {|
  arrayBuffer := fun _ => Ret 0%nat;
  getDocument := fun _ => Ret pages;
  getPage := fun _ => Ret tt;
  renderPage := fun _ => Ret tt;
  createImageBitmap := fun _ => Ret tt;
  toBlob := fun c _ _ => Ret (match c with CPage i => "page" ++ string_of_nat i | CBitmap => "image" end);
  generateAsync := fun _ => Ret "archive";
  createObjectURL := fun b => Ret ("blob:" ++ b) |}.

(** As [ok_platform], but [createImageBitmap] rejects (undecodable image). *)
Definition decode_failing_platform : Platform := {|
  arrayBuffer := fun _ => Ret 0%nat;
  getDocument := fun _ => Ret 1%nat;
  getPage := fun _ => Ret tt;
  renderPage := fun _ => Ret tt;
  createImageBitmap := fun _ => Throw (JSError "The source image could not be decoded.");
  toBlob := fun _ _ _ => Ret "image";
  generateAsync := fun _ => Ret "archive";
  createObjectURL := fun b => Ret ("blob:" ++ b) |}.

(** As [ok_platform], but rendering page [bad] of the PDF rejects. *)
Definition render_failing_platform (pages bad : nat) : Platform := {|
  arrayBuffer := fun _ => Ret 0%nat;
  getDocument := fun _ => Ret pages;
  getPage := fun _ => Ret tt;
  renderPage := fun i => if Nat.eqb i bad then Throw (JSError "Rendering failed.") else Ret tt;
  createImageBitmap := fun _ => Ret tt;
  toBlob := fun c _ _ => Ret (match c with CPage i => "page" ++ string_of_nat i | CBitmap => "image" end);
  generateAsync := fun _ => Ret "archive";
  createObjectURL := fun b => Ret ("blob:" ++ b) |}.

Definition photo_png : File := {| file_name := "photo.png"; file_id := 1 |}.
Definition report_pdf : File := {| file_name := "report.pdf"; file_id := 2 |}.

(** [round(done / pages * 100)] in exact arithmetic, ties rounded up:
    [floor(100*done/pages + 1/2)]. *)
Definition exact_round_pct (done pages : nat) : Z :=
  ((200 * Z.of_nat done + Z.of_nat pages) / (2 * Z.of_nat pages))%Z.

(** The events [pdf_pages] writes for pages [done+1 .. done+k] of [pages]. *)
Definition pdf_progress_events (pages done k : nat) : list event :=
  concat (map (fun d => [EBar (pdf_pct d pages); EStatus (STPdfProgress (pdf_pct d pages) d pages)])
              (seq (S done) k)).

(** The archive entries for pages [i .. i+k-1]. *)
Definition pdf_entries (t : string) (blob_of : nat -> string) (i k : nat) : list (string * string) :=
  map (fun j => (page_entry_name j t, blob_of j)) (seq i k).

(** A status fetch that fails: rejected, non-ok HTTP status, or a body that
    is not a usable JSON object. *)
Definition fetch_failed (o : FetchOutcome) : bool :=
  match o with
  | FRejected => true
  | FResponse c None => true
  | FResponse c (Some _) => negb (is_ok c)
  end.

(** A status fetch reporting a terminal state. *)
Definition terminal (o : FetchOutcome) : bool :=
  match o with
  | FResponse c (Some s) => is_ok c && (status_is s "done" || status_is s "error")
  | _ => false
  end.

(** The prefix of [l] up to and including its first element satisfying [p]. *)
Fixpoint take_through {A} (p : A -> bool) (l : list A) : list A :=
  match l with
  | [] => []
  | x :: l' => if p x then [x] else x :: take_through p l'
  end.

(** The times of the [poll()] invocations in a trace. *)
Fixpoint tick_times (tr : list event) : list Z :=
  match tr with
  | [] => []
  | ETick t :: tr' => t :: tick_times tr'
  | _ :: tr' => tick_times tr'
  end.

(** The DOM writes a status poll may perform. *)
Definition is_poll_write (e : event) : Prop :=
  match e with EBar _ | EStatus _ | EResult _ | EClearInterval => True | _ => False end.



Definition processing_no_percent : PollStatus := {|
  ps_status := Some "processing"; ps_percent := None; ps_msg := None;
  ps_download := None; ps_filename := None; ps_error := None |}.

(** ** Target picker: [setSuggestions], [enableConvertIfReady], [onFilePicked] *)

(** The state of the target controls: the options of [targetSelect], the
    suggestion chips, the selected value and [convertBtn.disabled].  The
    option and chip labels ([fmt.toUpperCase()]) and the chips' [active]
    class are left out. *)
Record Picker := {
  pk_options : list string;
  pk_chips : list string;
  pk_value : string;
  pk_disabled : bool
}.

(** [convertBtn.disabled = !(hasFile && hasTarget)] *)
Definition enableConvertIfReady (hasFile : bool) (value : string) : bool :=
  negb (hasFile && negb (String.eqb value "")).

(** [setSuggestions(ext, cat)]: options from [allTargetsFor], chips from
    the suggestions that are options; [selectedIndex = 0] selects the first
    option, then [firstChip.click()] sets the value to the first chip. *)
Definition setSuggestions (hasFile : bool) (ext cat : string) : Picker :=
  let opts := allTargetsFor ext cat in
  let top := filter (includes opts) (suggestedTargets ext cat) in
  let value0 := match opts with o :: _ => o | [] => "" end in
  let value := match top with fmt :: _ => fmt | [] => value0 end in
  {| pk_options := opts; pk_chips := top; pk_value := value;
     pk_disabled := enableConvertIfReady hasFile value |}.

(** [onFilePicked(file)], reached from the drop and change handlers once
    [fileInput.files] holds the file (so [hasFile] is true).  The [filemeta]
    label is left out. *)
Definition onFilePicked (file : File) : list event * Picker :=
  let ext := extOf (file_name file) in
  let cat := guessCategory ext in
  ([EResult RNone; EStatus STEmpty; EBar (NFin 0); EIndDisplay false;
    EIndIndeterminate false],
   setSuggestions true ext cat).

(** A chip's click handler: [targetSelect.value = fmt; enableConvertIfReady()].
    Assigning a value that no option carries leaves the select without a
    selected option, whose value is the empty string. *)
Definition chip_click (pk : Picker) (fmt : string) : Picker :=
  let v := if includes (pk_options pk) fmt then fmt else "" in
  {| pk_options := pk_options pk; pk_chips := pk_chips pk; pk_value := v;
     pk_disabled := enableConvertIfReady true v |}.

(** The user picks the [i]-th option: the select's [change] listener is
    [enableConvertIfReady]. *)
Definition select_option (pk : Picker) (i : nat) : Picker :=
  match nth_error (pk_options pk) i with
  | Some v =>
      {| pk_options := pk_options pk; pk_chips := pk_chips pk; pk_value := v;
         pk_disabled := enableConvertIfReady true v |}
  | None => pk
  end.

(** What the user can do with the picker once a file is chosen. *)
Inductive picker_action :=
| ChipClick (i : nat)
| SelectOption (i : nat).

Definition picker_step (pk : Picker) (a : picker_action) : Picker :=
  match a with
  | ChipClick i =>
      match nth_error (pk_chips pk) i with
      | Some fmt => chip_click pk fmt
      | None => pk
      end
  | SelectOption i => select_option pk i
  end.

(** The shape [setSuggestions] leaves and the picker actions keep: chips
    are options, options are non-empty, the value is an option and the
    button state follows [enableConvertIfReady]. *)
Definition picker_inv (pk : Picker) : Prop :=
  (forall x, In x (pk_chips pk) -> In x (pk_options pk)) /\
  (forall x, In x (pk_options pk) -> x <> "") /\
  In (pk_value pk) (pk_options pk) /\
  pk_disabled pk = enableConvertIfReady true (pk_value pk).

(** Every extension some input list names. *)
Definition KNOWN_IN : list string := (IMAGE_IN ++ AV_IN ++ DOC_IN ++ DATA_IN)%list.

(** ** [escapeHtml] *)

Definition DQ : ascii := "034".

(** The replacement of one character: [&amp;], [&lt;], [&gt;] and [&quot;]
    for the ampersand, the angle brackets and the double quote, the
    character itself otherwise. *)
Definition escape_char (c : ascii) : string :=
  if Ascii.eqb c "&" then "&amp;"
  else if Ascii.eqb c "<" then "&lt;"
  else if Ascii.eqb c ">" then "&gt;"
  else if Ascii.eqb c DQ then "&quot;"
  else String c "".

(** [String(s).replace(/[&<>DQ]/g, c => ...)] where DQ is the double quote. *)
Fixpoint escapeHtml (s : string) : string :=
  match s with
  | EmptyString => ""
  | String c s' => escape_char c ++ escapeHtml s'
  end.

(** The browser's decoding of the character references [&amp;], [&lt;],
    [&gt;] and [&quot;] in text. *)
Fixpoint html_decode (l : list ascii) : list ascii :=
  match l with
  | [] => []
  | "&"%char :: r =>
      match r with
      | "a"%char :: "m"%char :: "p"%char :: ";"%char :: r' => "&"%char :: html_decode r'
      | "l"%char :: "t"%char :: ";"%char :: r' => "<"%char :: html_decode r'
      | "g"%char :: "t"%char :: ";"%char :: r' => ">"%char :: html_decode r'
      | "q"%char :: "u"%char :: "o"%char :: "t"%char :: ";"%char :: r' => DQ :: html_decode r'
      | _ => "&"%char :: html_decode r
      end
  | c :: r => c :: html_decode r
  end.

(** ** Upload events of the server path *)

(** [xhr.upload.onload] *)
Definition upload_onload : M unit :=
  emit (EBar (NFin 100)) ;;;
  emit (EStatus STProcessing) ;;;
  emit (EIndDisplay true) ;;;
  emit (EIndIndeterminate true).

(** [xhr.onerror] *)
Definition xhr_onerror : M unit :=
  emit (EResult (RErr "Network error while uploading.")) ;;;
  emit (EStatus STEmpty) ;;;
  emit (EIndIndeterminate false) ;;;
  emit (EIndDisplay false).

(** Whether [barInd] is displayed, resp. has the [indeterminate] class,
    after a trace, from the state [cur]. *)
Fixpoint display_after (cur : bool) (tr : list event) : bool :=
  match tr with
  | [] => cur
  | EIndDisplay b :: tr' => display_after b tr'
  | _ :: tr' => display_after cur tr'
  end.

Fixpoint indeterminate_after (cur : bool) (tr : list event) : bool :=
  match tr with
  | [] => cur
  | EIndIndeterminate b :: tr' => indeterminate_after b tr'
  | _ :: tr' => indeterminate_after cur tr'
  end.

(** ** Cookie banner: [setCookie], [getCookie], [showBannerIfNeeded] *)

(** White space removed by [String.prototype.trim] among the characters
    U+0000..U+00FF: TAB, LF, VT, FF, CR, SPACE and NO-BREAK SPACE. *)
Definition is_ws (c : ascii) : bool :=
  existsb (Nat.eqb (nat_of_ascii c)) [9; 10; 11; 12; 13; 32; 160]%nat.

Fixpoint drop_ws (l : list ascii) : list ascii :=
  match l with
  | c :: r => if is_ws c then drop_ws r else l
  | [] => []
  end.

(** [s.trim()] *)
Definition trim (s : string) : string :=
  string_of_list_ascii (rev (drop_ws (rev (drop_ws (list_ascii_of_string s))))).

(** [s.split(sep)] for a one-character separator. *)
Fixpoint split_on (sep : ascii) (s : string) : list string :=
  match s with
  | EmptyString => [""]
  | String c s' =>
      let parts := split_on sep s' in
      if Ascii.eqb c sep then "" :: parts
      else match parts with
           | p :: ps => String c p :: ps
           | [] => [String c ""]
           end
  end.

Definition hex_digit (n : nat) : string :=
  String (ascii_of_nat (if (n <? 10)%nat then 48 + n else 55 + n)%nat) "".

(** ["%" + two upper-case hex digits] of a byte. *)
Definition pct_byte (n : nat) : string :=
  "%" ++ hex_digit (n / 16) ++ hex_digit (n mod 16).

(** The characters [encodeURIComponent] leaves alone:
    [A-Z a-z 0-9 - _ . ! ~ * ' ( )]. *)
Definition uri_unreserved (c : ascii) : bool :=
  let n := nat_of_ascii c in
  ((65 <=? n) && (n <=? 90))%nat || ((97 <=? n) && (n <=? 122))%nat ||
  ((48 <=? n) && (n <=? 57))%nat || includes ["-";"_";".";"!";"~";"*";"'";"(";")"] (String c "").

(** One character (code point U+0000..U+00FF) of [encodeURIComponent]:
    percent-encoded UTF-8 bytes. *)
Definition uri_encode_char (c : ascii) : string :=
  let n := nat_of_ascii c in
  if uri_unreserved c then String c ""
  else if (n <? 128)%nat then pct_byte n
  else pct_byte (192 + n / 64) ++ pct_byte (128 + n mod 64).

Fixpoint encodeURIComponent (s : string) : string :=
  match s with
  | EmptyString => ""
  | String c s' => uri_encode_char c ++ encodeURIComponent s'
  end.

(** The string [setCookie(name, value, days)] assigns to [document.cookie]:
    [`${name}=${encodeURIComponent(value)}; Max-Age=${days*24*60*60}; Path=/; SameSite=Lax`] *)
Definition setCookie (name value : string) (days : Z) : string :=
  name ++ "=" ++ encodeURIComponent value ++ "; Max-Age=" ++
  string_of_Z (days * 24 * 60 * 60) ++ "; Path=/; SameSite=Lax".

(** The browser's cookie store for the page, in [document.cookie] order;
    [Path=/] and [SameSite=Lax] do not restrict the page's own reads. *)
Definition Jar := list (string * string).

(** The text before the first [sep] and the text after it. *)
Fixpoint split_first (sep : ascii) (s : string) : option (string * string) :=
  match s with
  | EmptyString => None
  | String c s' =>
      if Ascii.eqb c sep then Some ("", s')
      else match split_first sep s' with
           | Some (a, b) => Some (String c a, b)
           | None => None
           end
  end.

Definition digit_val (c : ascii) : option nat :=
  let n := nat_of_ascii c in
  if ((48 <=? n) && (n <=? 57))%nat then Some (n - 48)%nat else None.

Fixpoint parse_digits (acc : nat) (s : string) : option nat :=
  match s with
  | EmptyString => Some acc
  | String c s' =>
      match digit_val c with
      | Some d => parse_digits (10 * acc + d)%nat s'
      | None => None
      end
  end.

(** A Max-Age attribute value: an optional [-] then one or more digits. *)
Definition parse_max_age (v : string) : option Z :=
  match v with
  | String "-" (String _ _ as ds) => option_map (fun n => Z.opp (Z.of_nat n)) (parse_digits 0 ds)
  | String _ _ => option_map Z.of_nat (parse_digits 0 v)
  | EmptyString => None
  end.

(** The last valid Max-Age among the attributes of a cookie string. *)
Fixpoint max_age (attrs : list string) : option Z :=
  match attrs with
  | [] => None
  | a :: rest =>
      let here :=
        match split_first "=" a with
        | Some (k, v) =>
            if String.eqb (toLowerCase (trim k)) "max-age" then parse_max_age (trim v) else None
        | None => None
        end in
      match max_age rest with
      | Some m => Some m
      | None => here
      end
  end.

(** Stores a cookie: an existing cookie of that name keeps its place. *)
Definition jar_upsert (n v : string) (jar : Jar) : Jar :=
  if existsb (fun p => String.eqb (fst p) n) jar
  then map (fun p => if String.eqb (fst p) n then (n, v) else p) jar
  else (jar ++ [(n, v)])%list.

Definition jar_remove (n : string) (jar : Jar) : Jar :=
  filter (fun p => negb (String.eqb (fst p) n)) jar.

(** [document.cookie = s]: the name-value pair is the text up to the first
    [;], split at its first [=] and trimmed; a Max-Age of zero or less
    deletes the cookie. *)
Definition cookie_write (jar : Jar) (s : string) : Jar :=
  match split_on ";" s with
  | nv :: attrs =>
      match split_first "=" nv with
      | Some (n, v) =>
          match max_age attrs with
          | Some a => if (a <=? 0)%Z then jar_remove (trim n) jar
                      else jar_upsert (trim n) (trim v) jar
          | None => jar_upsert (trim n) (trim v) jar
          end
      | None => jar
      end
  | [] => jar
  end.

Definition cookie_pair (p : string * string) : string := fst p ++ "=" ++ snd p.

(** Reading [document.cookie]: ["n1=v1; n2=v2"]. *)
Definition cookie_read (jar : Jar) : string :=
  String.concat "; " (map cookie_pair jar).

(** [document.cookie.split(';').map(s=>s.trim()).find(s=>s.startsWith(name+'='))?.split('=')[1]] *)
Definition getCookie (name cookie : string) : option string :=
  match find (fun s => String.prefix (name ++ "=") s) (map trim (split_on ";" cookie)) with
  | Some s => nth_error (split_on "=" s) 1
  | None => None
  end.

(** The page's banner and its cookie store. *)
Record Consent := { banner_shown : bool; jar : Jar }.

(** [showBannerIfNeeded()] on page load. *)
Definition showBannerIfNeeded (jar0 : Jar) : Consent :=
  {| banner_shown := negb (truthy_str (getCookie "consent" (cookie_read jar0)));
     jar := jar0 |}.

(** The accept and decline buttons, and the Escape key. *)
Definition accept_click (c : Consent) : Consent :=
  {| banner_shown := false; jar := cookie_write (jar c) (setCookie "consent" "accept" 180) |}.

Definition decline_click (c : Consent) : Consent :=
  {| banner_shown := false; jar := jar c |}.

Definition escape_key (c : Consent) : Consent :=
  if banner_shown c then decline_click c else c.

(** Cookie names and values as the browser keeps them: [no_char d s] says
    [s] has no character [d]; [ends_ok l] says the first character of [l],
    if any, is not white space. *)
Definition no_char (d : ascii) (s : string) : bool :=
  forallb (fun c => negb (Ascii.eqb c d)) (list_ascii_of_string s).

Definition ends_ok (l : list ascii) : bool :=
  match l with
  | c :: _ => negb (is_ws c)
  | [] => true
  end.

(** A stored cookie name: non-empty, trimmed, without [;] or [=]. *)
Definition name_okb (n : string) : bool :=
  negb (String.eqb n "") && no_char ";" n && no_char "=" n &&
  ends_ok (list_ascii_of_string n) && ends_ok (rev (list_ascii_of_string n)).

(** A stored cookie value: without [;] and with no trailing white space. *)
Definition value_okb (v : string) : bool :=
  no_char ";" v && ends_ok (rev (list_ascii_of_string v)).

Definition jar_ok (j : Jar) : bool :=
  forallb (fun p => name_okb (fst p) && value_okb (snd p)) j.

(** The characters [encodeURIComponent] may output into a cookie string:
    neither [;] nor [=] nor white space. *)
Definition safe_char (c : ascii) : bool :=
  negb (Ascii.eqb c ";") && negb (Ascii.eqb c "=") && negb (is_ws c).

(** ** Trace predicates *)

Definition is_send (e : event) : bool :=
  match e with EXhrSend _ => true | _ => false end.

(** Number of [xhr.send] calls (server attempts) in a trace. *)
Definition count_sends (tr : list event) : nat := length (filter is_send tr).

(** [e] is a DOM progress write of the local engine (bar or status line). *)
Definition is_progress (e : event) : Prop :=
  match e with EBar _ | EStatus _ => True | _ => False end.

(** The error [canDoLocal] raises on a key whose value has no [has]. *)
Definition TYPE_ERROR_HAS : js_error :=
  JSTypeError "LOCAL_OK[srcExt]?.has is not a function".

(** Sources the local image branch decodes. *)
Definition IMAGE_LOCAL_SRC := ["jpg";"jpeg";"png";"webp";"gif";"tiff";"bmp";"ico"].

(** * Properties *)

(** ** Trace helpers *)

Lemma Forall_bind {A B} (Q : event -> Prop) (m : M A) (f : A -> M B) :
  Forall Q (fst m) -> (forall a, Forall Q (fst (f a))) -> Forall Q (fst (bind m f)).
Proof.
  destruct m as [w [a|e]]; simpl; intros Hm Hf; auto.
  specialize (Hf a). destruct (f a) as [w' r]. simpl in *.
  apply Forall_app; split; assumption.
Qed.

Lemma Forall_emit (Q : event -> Prop) e : Q e -> Forall Q (fst (emit e)).
Proof. intros; simpl; constructor; auto. Qed.

Lemma Forall_lift {A} (Q : event -> Prop) (r : exc A) : Forall Q (fst (lift r)).
Proof. simpl; constructor. Qed.

Lemma Forall_ret {A} (Q : event -> Prop) (a : A) : Forall Q (fst (ret a)).
Proof. simpl; constructor. Qed.

Lemma Forall_throw {A} (Q : event -> Prop) e : Forall Q (fst (@throw A e)).
Proof. simpl; constructor. Qed.

Ltac trace_auto :=
  repeat (cbv zeta; first
    [ apply Forall_ret | apply Forall_lift | apply Forall_throw
    | apply Forall_emit; simpl; exact I
    | apply Forall_bind; intros ]).

Lemma pdf_pages_progress P t pages k i done zip :
  Forall is_progress (fst (pdf_pages P t pages k i done zip)).
Proof.
  revert i done zip; induction k as [|k IH]; intros i done zip; cbn [pdf_pages].
  - apply Forall_ret.
  - trace_auto. apply IH.
Qed.

(** The local engine writes only the progress bar and the status line. *)
Lemma convertLocal_progress P f s t : Forall is_progress (fst (convertLocal P f s t)).
Proof.
  unfold convertLocal.
  destruct (String.eqb s "pdf" && includes ["jpg";"png";"webp"] t);
  [| destruct (includes _ s && includes _ t)];
  trace_auto; apply pdf_pages_progress.
Qed.

Lemma assoc_In k l v : assoc k l = Some v -> In (k, v) l.
Proof.
  induction l as [|[k' v'] l IH]; simpl; [discriminate|].
  destruct (String.eqb k k') eqn:E.
  - intros H; inversion H; subst. apply String.eqb_eq in E; subst; auto.
  - intros H; right; auto.
Qed.

Lemma proto_has_no_method k v :
  assoc k OBJECT_PROTOTYPE = Some v -> has_method v = None.
Proof.
  intros H; apply assoc_In in H; simpl in H.
  repeat (destruct H as [H|H]; [inversion H; reflexivity|]); contradiction.
Qed.

(** ** C3 *)

(** C3: the percent reported by the status endpoint is clamped to [0,100]
    before it is relayed to the bar: 137 is relayed as 100, -5 as 0, and
    every JSON number (and an absent percent) gives an integer in [0,100]. *)
Theorem relay_pct_clamped :
  relay_pct (Some 137%float) = NFin 100 /\
  relay_pct (Some (-5)%float) = NFin 0 /\
  (forall p, exists z, relay_pct p = NFin z /\ (0 <= z <= 100)%Z).
Proof.
  split; [vm_compute; reflexivity|]. split; [vm_compute; reflexivity|].
  intros p. unfold relay_pct, js_round, js_truthy_num.
  destruct p as [x|].
  - destruct (Prim2SF x) as [sz|[|]| |s m e] eqn:E; simpl;
      try (rewrite E; simpl);
      try (exists 0%Z; split; [reflexivity|lia]);
      try (exists 100%Z; split; [reflexivity|lia]).
    exists (Z.max 0 (Z.min 100 (round_sf s m e))); split; [reflexivity|lia].
  - exists 0%Z; split; [vm_compute; reflexivity|lia].
Qed.

(** ** Resolver *)

Lemma includes_false_not_In xs x : includes xs x = false -> ~ In x xs.
Proof.
  unfold includes; intros H Hin.
  assert (existsb (String.eqb x) xs = true) as Ht.
  { apply existsb_exists; exists x; split; [assumption | apply String.eqb_refl]. }
  congruence.
Qed.

Lemma includes_app xs ys x : includes (xs ++ ys)%list x = includes xs x || includes ys x.
Proof. unfold includes; apply existsb_app. Qed.

Lemma includes_In_false xs x y : includes xs x = false -> In y xs -> String.eqb x y = false.
Proof.
  intros H Hy. apply String.eqb_neq. intros ->. apply (includes_false_not_In xs y H Hy).
Qed.

Lemma without_id ext xs : (forall y, In y xs -> String.eqb y ext = false) -> without ext xs = xs.
Proof.
  induction xs as [|x xs IH]; simpl; intros H; auto.
  rewrite (H x (or_introl eq_refl)); simpl; f_equal; auto.
Qed.

Lemma includes_sub xs ys x :
  (forall y, In y ys -> In y xs) -> includes xs x = false -> includes ys x = false.
Proof.
  intros Hsub H. destruct (includes ys x) eqn:E; [|reflexivity].
  unfold includes in E; apply existsb_exists in E as [y [Hy Hxy]].
  apply String.eqb_eq in Hxy; subst y.
  exfalso; apply (includes_false_not_In xs x H); auto.
Qed.

(** C8 (amended): an extension in none of the input lists (for instance the
    empty extension) falls in the default category "doc"; the current
    resolver then offers the whole document catalogue [DOC_OUT], while the
    earlier v1 resolver offers no target. *)
Theorem unknown_ext_doc_catalogue (ext : string) :
  includes (IMAGE_IN ++ AV_IN ++ DOC_IN ++ DATA_IN)%list ext = false ->
  guessCategory ext = "doc" /\
  allTargetsFor ext (guessCategory ext) = DOC_OUT /\
  V1.guessCategory ext = "doc" /\
  V1.allTargetsFor ext = [].
Proof.
  rewrite !includes_app; intros H.
  apply orb_false_iff in H as [Himg H].
  apply orb_false_iff in H as [Hav H].
  apply orb_false_iff in H as [Hdoc Hdata].
  assert (Hpdf : String.eqb ext "pdf" = false)
    by (apply (includes_In_false DOC_IN); [assumption | simpl; auto]).
  assert (Hv1img : includes V1.IMAGE_IN ext = false).
  { apply (includes_sub IMAGE_IN); [|assumption].
    intros y Hy; simpl in Hy |- *; intuition. }
  assert (Hcat : guessCategory ext = "doc")
    by (unfold guessCategory; rewrite Hpdf, Himg, Hav, Hdoc, Hdata; reflexivity).
  repeat split.
  - exact Hcat.
  - rewrite Hcat.
    assert (allTargetsFor ext "doc" = without ext DOC_OUT) as ->
      by (unfold allTargetsFor; rewrite Hpdf; reflexivity).
    apply without_id. intros y Hy.
    rewrite String.eqb_sym.
    apply (includes_In_false DOC_IN); [assumption|].
    simpl in Hy |- *; intuition.
  - assert (includes V1.DOC_IN ext = false) as Hv1doc
      by (unfold includes, V1.DOC_IN; cbn [existsb]; rewrite Hpdf; reflexivity).
    unfold V1.guessCategory; rewrite Hv1doc, Hv1img; reflexivity.
  - unfold V1.allTargetsFor. rewrite Hv1img, Hpdf; reflexivity.
Qed.

Lemma unknown_ext_doc_catalogue_witness :
  includes (IMAGE_IN ++ AV_IN ++ DOC_IN ++ DATA_IN)%list "" = false /\
  guessCategory "" = "doc" /\
  allTargetsFor "" (guessCategory "") = DOC_OUT /\
  V1.guessCategory "" = "doc" /\
  V1.allTargetsFor "" = [].
Proof.
  split; [reflexivity|]. apply (unknown_ext_doc_catalogue ""). reflexivity.
Defined.

(** C8 fails on the current resolver: the empty extension is classified
    "doc" but is offered the seven document targets, not an empty set. *)
Lemma empty_ext_targets_nonempty :
  guessCategory "" = "doc" /\
  allTargetsFor "" (guessCategory "") = ["pdf";"docx";"pptx";"xlsx";"odt";"odp";"ods"] /\
  allTargetsFor "" (guessCategory "") <> [].
Proof. split; [reflexivity|]. split; [reflexivity|]. discriminate. Qed.

(** ** canDoLocal *)


(** The local engine is entered only on the [localToggle.checked &&
    canDoLocal(srcExt, target)] path. *)
Lemma click_local_gate P disabled toggle f t s t' :
  In (ECallLocal s t') (fst (click P disabled toggle (Some f) t)) ->
  toggle = true /\ canDoLocal (extOf (file_name f)) t = Ret true.
Proof.
  unfold click.
  destruct disabled; [cbn; contradiction|].
  cbn -[convertLocal String.eqb canDoLocal extOf].
  destruct (String.eqb t "") eqn:Et; [cbn; contradiction|].
  destruct toggle.
  - destruct (canDoLocal (extOf (file_name f)) t) as [[|]|e] eqn:Ec.
    + auto.
    + cbn -[String.eqb]. intros H.
      repeat (destruct H as [H|H]; [discriminate|]); contradiction.
    + cbn -[String.eqb]. intros H.
      repeat (destruct H as [H|H]; [discriminate|]); contradiction.
  - cbn -[String.eqb]. intros H.
    repeat (destruct H as [H|H]; [discriminate|]); contradiction.
Qed.

(** C5 (code_bug): the click handler enters the local engine only when the
    local toggle is on and [canDoLocal] holds, but [canDoLocal] does not
    return false for every extension without a local target set: for a file
    "notes.constructor" (category "doc", target "pdf" offered) the lookup
    [LOCAL_OK["constructor"]] finds [Object.prototype.constructor], the call
    of its missing [has] method throws, and the click handler rejects before
    either the local or the remote path starts. *)
Theorem canDoLocal_prototype_key_blocks_click :
  (forall P disabled toggle f t s t',
     In (ECallLocal s t') (fst (click P disabled toggle (Some f) t)) ->
     toggle = true /\ canDoLocal (extOf (file_name f)) t = Ret true) /\
  extOf "notes.constructor" = "constructor" /\
  includes (allTargetsFor "constructor" (guessCategory "constructor")) "pdf" = true /\
  canDoLocal "constructor" "pdf" = Throw TYPE_ERROR_HAS /\
  (forall P, click P false true (Some {| file_name := "notes.constructor"; file_id := 0 |}) "pdf"
     = ([EResult RNone; EStatus STEmpty; EBar (NFin 0); EIndDisplay false;
         EIndIndeterminate false], Throw TYPE_ERROR_HAS)).
Proof.
  split; [exact click_local_gate|].
  split; [reflexivity|]. split; [reflexivity|]. split; [reflexivity|].
  intros P; reflexivity.
Qed.

Lemma count_sends_app a b : count_sends (a ++ b)%list = (count_sends a + count_sends b)%nat.
Proof. unfold count_sends; rewrite filter_app, length_app; reflexivity. Qed.

Lemma progress_no_sends w : Forall is_progress w -> count_sends w = 0%nat.
Proof.
  induction 1 as [|e w He _ IH]; [reflexivity|].
  destruct e; try contradiction; exact IH.
Qed.

Lemma progress_no_result w v : Forall is_progress w -> ~ In (EResult v) w.
Proof.
  intros H Hin. rewrite Forall_forall in H. apply (H _ Hin).
Qed.

(** The local-failure path of the click handler, written out. *)
Lemma click_local_throw P f target w e :
  target <> "" ->
  canDoLocal (extOf (file_name f)) target = Ret true ->
  convertLocal P f (extOf (file_name f)) target = (w, Throw e) ->
  click P false true (Some f) target =
    ([EResult RNone; EStatus STEmpty; EBar (NFin 0); EIndDisplay false;
      EIndIndeterminate false; ECallLocal (extOf (file_name f)) target] ++ w ++
     [EWarn; EStatus STUploading;
      EXhrSend [("file", file_name f); ("target", target)]], Ret tt)%list.
Proof.
  intros Ht Hc Hl. unfold click.
  cbn -[convertLocal String.eqb canDoLocal extOf].
  apply String.eqb_neq in Ht; rewrite Ht, Hc.
  cbn -[convertLocal String.eqb extOf]. rewrite Hl. cbn.
  rewrite <- !app_assoc; reflexivity.
Qed.

(** C1: when the local path is taken (toggle on, [canDoLocal] true) and the
    local conversion throws at any step, the click handler starts the server
    upload exactly once, completes normally, and shows no local failure: the
    only write to the result box is its reset. *)
Theorem click_local_failure_falls_back P f target w e :
  target <> "" ->
  canDoLocal (extOf (file_name f)) target = Ret true ->
  convertLocal P f (extOf (file_name f)) target = (w, Throw e) ->
  snd (click P false true (Some f) target) = Ret tt /\
  In (ECallLocal (extOf (file_name f)) target) (fst (click P false true (Some f) target)) /\
  count_sends (fst (click P false true (Some f) target)) = 1%nat /\
  (forall v, In (EResult v) (fst (click P false true (Some f) target)) -> v = RNone).
Proof.
  intros Ht Hc Hl.
  pose proof (convertLocal_progress P f (extOf (file_name f)) target) as Hp.
  rewrite Hl in Hp; simpl in Hp.
  rewrite (click_local_throw P f target w e Ht Hc Hl); cbn [fst snd].
  split; [reflexivity|]. split; [apply in_or_app; left; simpl; tauto|]. split.
  - rewrite !count_sends_app, (progress_no_sends w Hp). reflexivity.
  - intros v H. apply in_app_or in H as [H|H].
    { simpl in H. destruct H as [H|H]; [congruence|].
      repeat (destruct H as [H|H]; [discriminate|]); contradiction. }
    apply in_app_or in H as [H|H]; [exfalso; exact (progress_no_result w v Hp H)|].
    simpl in H; repeat (destruct H as [H|H]; [discriminate|]); contradiction.
Qed.

Lemma click_local_failure_falls_back_witness :
  convertLocal decode_failing_platform photo_png "png" "webp" =
    ([EStatus STDecoding], Throw (JSError "The source image could not be decoded.")) /\
  snd (click decode_failing_platform false true (Some photo_png) "webp") = Ret tt /\
  In (ECallLocal (extOf (file_name photo_png)) "webp")
     (fst (click decode_failing_platform false true (Some photo_png) "webp")) /\
  count_sends (fst (click decode_failing_platform false true (Some photo_png) "webp")) = 1%nat /\
  (forall v, In (EResult v) (fst (click decode_failing_platform false true (Some photo_png) "webp")) ->
     v = RNone).
Proof.
  split; [reflexivity|].
  apply (click_local_failure_falls_back decode_failing_platform photo_png "webp"
           [EStatus STDecoding] (JSError "The source image could not be decoded."));
    [discriminate | reflexivity | reflexivity].
Defined.

(** The local-success path of the click handler, written out. *)
Lemma click_local_ok P f target w out :
  String.eqb target "" = false ->
  canDoLocal (extOf (file_name f)) target = Ret true ->
  convertLocal P f (extOf (file_name f)) target = (w, Ret out) ->
  click P false true (Some f) target =
    ([EResult RNone; EStatus STEmpty; EBar (NFin 0); EIndDisplay false;
      EIndIndeterminate false; ECallLocal (extOf (file_name f)) target] ++ w ++
     [EResult (RLocalDone (out_url out) (out_filename out))], Ret tt)%list.
Proof.
  intros Ht Hc Hl. unfold click.
  cbn -[convertLocal String.eqb canDoLocal extOf].
  rewrite Ht, Hc.
  cbn -[convertLocal String.eqb extOf]. rewrite Hl. cbn.
  rewrite <- !app_assoc; reflexivity.
Qed.

(** C7: a successful local image conversion names its result after the
    source base name with the target extension, and the click handler shows
    it as the final result without any server request. *)
Theorem click_image_local_success P f target w out :
  includes IMAGE_LOCAL_SRC (extOf (file_name f)) = true ->
  includes ["jpg";"png";"webp"] target = true ->
  canDoLocal (extOf (file_name f)) target = Ret true ->
  convertLocal P f (extOf (file_name f)) target = (w, Ret out) ->
  out_filename out = strip_ext (file_name f) ++ "." ++ target /\
  snd (click P false true (Some f) target) = Ret tt /\
  count_sends (fst (click P false true (Some f) target)) = 0%nat /\
  last (fst (click P false true (Some f) target)) EWarn =
    EResult (RLocalDone (out_url out) (out_filename out)).
Proof.
  intros Hs Ht Hc Hl.
  assert (Hpdf : String.eqb (extOf (file_name f)) "pdf" = false).
  { destruct (String.eqb (extOf (file_name f)) "pdf") eqn:E; [|reflexivity].
    apply String.eqb_eq in E; rewrite E in Hs; discriminate. }
  assert (Hne : String.eqb target "" = false).
  { destruct (String.eqb target "") eqn:E; [|reflexivity].
    apply String.eqb_eq in E; rewrite E in Ht; discriminate. }
  pose proof (convertLocal_progress P f (extOf (file_name f)) target) as Hp.
  rewrite Hl in Hp; simpl in Hp.
  split.
  - revert Hl. unfold convertLocal. unfold IMAGE_LOCAL_SRC in Hs. rewrite Hpdf, Hs, Ht. cbn [andb].
    intros H; cbn in H.
    repeat match type of H with
           | context [match ?x with Ret _ => _ | Throw _ => _ end] =>
               destruct x; cbn in H
           end;
    inversion H; reflexivity.
  - rewrite (click_local_ok P f target w out Hne Hc Hl); cbn [fst snd].
    split; [reflexivity|]. split.
    + rewrite !count_sends_app, (progress_no_sends w Hp). reflexivity.
    + rewrite app_assoc, last_last. reflexivity.
Qed.

Lemma click_image_local_success_witness :
  convertLocal (ok_platform 1) photo_png "png" "webp" =
    ([EStatus STDecoding; EBar (NFin 30); EBar (NFin 60); EBar (NFin 100); EStatus STDone],
     Ret {| out_url := "blob:image"; out_filename := "photo.webp" |}) /\
  ("photo.webp" = strip_ext (file_name photo_png) ++ "." ++ "webp" /\
  snd (click (ok_platform 1) false true (Some photo_png) "webp") = Ret tt /\
  count_sends (fst (click (ok_platform 1) false true (Some photo_png) "webp")) = 0%nat /\
  last (fst (click (ok_platform 1) false true (Some photo_png) "webp")) EWarn =
    EResult (RLocalDone "blob:image" "photo.webp")).
Proof.
  split; [reflexivity|].
  apply (click_image_local_success (ok_platform 1) photo_png "webp"
           [EStatus STDecoding; EBar (NFin 30); EBar (NFin 60); EBar (NFin 100); EStatus STDone]
           {| out_url := "blob:image"; out_filename := "photo.webp" |});
    reflexivity.
Defined.

(** ** PDF to images *)

Lemma pdf_pages_ok P t pages blob_of :
  (forall i, getPage P i = Ret tt) ->
  (forall i, renderPage P i = Ret tt) ->
  (forall i, toBlob P (CPage i) (mime_of t) (quality_of (mime_of t)) = Ret (blob_of i)) ->
  forall k i done zip,
  pdf_pages P t pages k i done zip =
    (pdf_progress_events pages done k, Ret (zip ++ pdf_entries t blob_of i k)%list).
Proof.
  intros Hg Hr Hb k. induction k as [|k IH]; intros i done zip.
  - cbn. rewrite app_nil_r. reflexivity.
  - cbn [pdf_pages]. rewrite Hg, Hr, Hb. cbn -[pdf_pages pdf_pct].
    rewrite IH. cbn. f_equal. f_equal. rewrite <- app_assoc. reflexivity.
Qed.

Lemma length_list_ascii_of_string s : List.length (list_ascii_of_string s) = String.length s.
Proof. induction s; simpl; auto. Qed.

Lemma length_string_of_list_ascii l : String.length (string_of_list_ascii l) = List.length l.
Proof. induction l; simpl; auto. Qed.

Lemma length_toLowerCase s : String.length (toLowerCase s) = String.length s.
Proof.
  unfold toLowerCase. rewrite length_string_of_list_ascii, length_map.
  apply length_list_ascii_of_string.
Qed.

Lemma split_dot_rev_app r ra rb :
  split_dot_rev r = Some (ra, rb) -> r = (ra ++ "."%char :: rb)%list.
Proof.
  revert ra rb; induction r as [|c r IH]; intros ra rb; simpl; [discriminate|].
  destruct (Ascii.eqb c ".") eqn:E.
  - intros H; inversion H; subst. apply Ascii.eqb_eq in E; subst; reflexivity.
  - destruct (split_dot_rev r) as [[a b]|] eqn:Er; [|discriminate].
    intros H; inversion H; subst. simpl. f_equal. apply IH; reflexivity.
Qed.

(** On a name whose extension is "pdf", [name.replace(/\.pdf$/i, rep)]
    replaces the extension (with its dot) by [rep]. *)
Lemma replace_pdf_suffix_ext name rep :
  extOf name = "pdf" -> replace_pdf_suffix name rep = strip_ext name ++ rep.
Proof.
  unfold extOf, strip_ext, ext_match, replace_pdf_suffix.
  destruct (split_dot_rev (rev (list_ascii_of_string name))) as [[ra rb]|] eqn:E;
    [|discriminate].
  destruct ra as [|c ra]; [discriminate|].
  intros H.
  assert (Hl : List.length (c :: ra) = 3%nat).
  { apply (f_equal String.length) in H.
    rewrite length_toLowerCase, length_string_of_list_ascii, length_rev in H.
    exact H. }
  destruct ra as [|c2 [|c3 [|c4 ra]]]; simpl in Hl; try discriminate.
  apply split_dot_rev_app in E. rewrite E.
  cbn [rev List.app string_of_list_ascii] in H |- *.
  rewrite H. reflexivity.
Qed.

(** C6 (amended): with every browser primitive succeeding on a PDF of [n]
    pages, the local engine reports after page [d] the percent
    [Math.round((d/n)*100)] computed in double precision (33, 67, 100 for
    three pages), archives one entry per page named "page-<i>.<target>" for
    [i = 1..n] in page order, and names the result
    base name + "_" + target + ".zip". *)
Theorem pdf_local_conversion P f t b n blob_of zipBlob url :
  extOf (file_name f) = "pdf" ->
  includes ["jpg";"png";"webp"] t = true ->
  arrayBuffer P f = Ret b ->
  getDocument P b = Ret n ->
  (forall i, getPage P i = Ret tt) ->
  (forall i, renderPage P i = Ret tt) ->
  (forall i, toBlob P (CPage i) (mime_of t) (quality_of (mime_of t)) = Ret (blob_of i)) ->
  generateAsync P (pdf_entries t blob_of 1 n) = Ret zipBlob ->
  createObjectURL P zipBlob = Ret url ->
  convertLocal P f "pdf" t =
    (EStatus STPreparingPdf :: pdf_progress_events n 0 n,
     Ret {| out_url := url;
            out_filename := strip_ext (file_name f) ++ "_" ++ t ++ ".zip" |}) /\
  pdf_entries t blob_of 1 n = map (fun j => ("page-" ++ string_of_nat j ++ "." ++ t, blob_of j)) (seq 1 n) /\
  map (fun d => pdf_pct d 3) [1;2;3]%nat = [NFin 33; NFin 67; NFin 100].
Proof.
  intros Hext Ht Ha Hd Hg Hr Hb Hz Hu.
  split; [|split; [reflexivity | vm_compute; reflexivity]].
  unfold convertLocal. rewrite Ht, String.eqb_refl. cbn [andb].
  cbn -[pdf_pages replace_pdf_suffix]. rewrite Ha.
  cbn -[pdf_pages replace_pdf_suffix]. rewrite Hd.
  cbn -[pdf_pages replace_pdf_suffix].
  rewrite (pdf_pages_ok P t n blob_of Hg Hr Hb n 1 0 []). cbn -[replace_pdf_suffix pdf_progress_events].
  rewrite Hz, Hu. cbn -[replace_pdf_suffix pdf_progress_events].
  rewrite (replace_pdf_suffix_ext _ _ Hext), app_nil_r. reflexivity.
Qed.

Lemma pdf_local_conversion_witness :
  (convertLocal (ok_platform 3) report_pdf "pdf" "jpg" =
    (EStatus STPreparingPdf :: pdf_progress_events 3 0 3,
     Ret {| out_url := "blob:archive";
            out_filename := strip_ext (file_name report_pdf) ++ "_" ++ "jpg" ++ ".zip" |}) /\
   pdf_entries "jpg" (fun i => "page" ++ string_of_nat i) 1 3 =
     map (fun j => ("page-" ++ string_of_nat j ++ "." ++ "jpg", "page" ++ string_of_nat j)) (seq 1 3) /\
   map (fun d => pdf_pct d 3) [1;2;3]%nat = [NFin 33; NFin 67; NFin 100]) /\
  strip_ext (file_name report_pdf) ++ "_" ++ "jpg" ++ ".zip" = "report_jpg.zip" /\
  map fst (pdf_entries "jpg" (fun i => "page" ++ string_of_nat i) 1 3) =
    ["page-1.jpg"; "page-2.jpg"; "page-3.jpg"].
Proof.
  split; [|split; reflexivity].
  apply (pdf_local_conversion (ok_platform 3) report_pdf "jpg" 0%nat 3%nat
           (fun i => "page" ++ string_of_nat i) "archive" "blob:archive");
    try reflexivity; intros; reflexivity.
Defined.

(** C6 as stated fails: the percent is computed in double precision, and for
    page 23 of a 40-page PDF [(23/40)*100] evaluates to 57.49999999999999,
    reported as 57, while [23/40*100] is exactly 57.5 and rounds to 58. *)
Lemma pdf_pct_float_rounding :
  pdf_pct 23 40 = NFin 57 /\
  (2 * (23 * 100) = 115 * 40)%Z /\
  exact_round_pct 23 40 = 58%Z /\
  pdf_pct 23 40 <> NFin (exact_round_pct 23 40).
Proof.
  split; [vm_compute; reflexivity|]. split; [reflexivity|]. split; [reflexivity|].
  vm_compute. discriminate.
Qed.

(** ** Status polling *)

Lemma seq_fst (m k : M unit) : snd m = Ret tt -> fst (m ;;; k) = (fst m ++ fst k)%list.
Proof.
  destruct m as [w [[]|e]]; simpl; intros H; [|discriminate].
  destruct k; reflexivity.
Qed.

Lemma seq_snd (m k : M unit) : snd m = Ret tt -> snd (m ;;; k) = snd k.
Proof.
  destruct m as [w [[]|e]]; simpl; intros H; [|discriminate].
  destruct k; reflexivity.
Qed.

Lemma tick_times_app a b : tick_times (a ++ b)%list = (tick_times a ++ tick_times b)%list.
Proof. induction a as [|e a IH]; simpl; [reflexivity|]. destruct e; simpl; rewrite ?IH; reflexivity. Qed.

Lemma cleared_app a b : cleared (a ++ b)%list = cleared a || cleared b.
Proof. unfold cleared; apply existsb_app. Qed.

Ltac poll_cases o :=
  destruct o as [|c [s|]]; unfold poll_complete;
  [ reflexivity
  | destruct (is_ok c); cbn -[status_is relay_pct String.eqb];
    [ destruct (ps_msg s) as [m|]; [destruct (String.eqb m "")|];
      destruct (status_is s "done"); destruct (status_is s "error"); reflexivity
    | reflexivity ]
  | destruct (is_ok c); reflexivity ].

Lemma poll_complete_ret o : snd (poll_complete o) = Ret tt.
Proof. poll_cases o. Qed.

Lemma poll_complete_ticks o : tick_times (fst (poll_complete o)) = [].
Proof. poll_cases o. Qed.

Lemma poll_complete_cleared o : cleared (fst (poll_complete o)) = terminal o.
Proof.
  destruct o as [|c [s|]]; unfold poll_complete; [reflexivity| |destruct (is_ok c); reflexivity].
  unfold terminal. destruct (is_ok c); cbn -[status_is relay_pct String.eqb]; [|reflexivity].
  destruct (ps_msg s) as [m|]; [destruct (String.eqb m "")|];
  destruct (status_is s "done"); destruct (status_is s "error"); reflexivity.
Qed.

Lemma poll_complete_writes o : Forall is_poll_write (fst (poll_complete o)).
Proof.
  destruct o as [|c [s|]]; unfold poll_complete; [constructor| |destruct (is_ok c); constructor].
  destruct (is_ok c); cbn -[status_is relay_pct String.eqb]; [|constructor].
  destruct (ps_msg s) as [m|]; [destruct (String.eqb m "")|];
  destruct (status_is s "done"); destruct (status_is s "error");
  repeat constructor.
Qed.

Lemma poll_ticks_spec jobId outs : forall j,
  tick_times (fst (poll_ticks jobId j outs)) =
    map (fun i => 1000 * Z.of_nat i)%Z (seq j (length (take_through terminal outs))) /\
  cleared (fst (poll_ticks jobId j outs)) = existsb terminal outs.
Proof.
  induction outs as [|o rest IH]; intros j; [split; reflexivity|].
  cbn [poll_ticks]. cbv zeta. unfold poll_start.
  rewrite !seq_fst by first [apply poll_complete_ret | reflexivity].
  rewrite !tick_times_app, !cleared_app, poll_complete_ticks, poll_complete_cleared.
  cbn [take_through existsb].
  destruct (terminal o); cbn; [split; reflexivity|].
  destruct (IH (S j)) as [H1 H2]. rewrite H1, H2. split; reflexivity.
Qed.

(** C2: a failed status fetch (rejected, non-ok HTTP status, or unusable
    body) changes nothing on the page and does not stop the timer; a poll
    stops the timer exactly when it fetched the status "done" or "error";
    and the polls run at 0 ms (immediately) and then every 1000 ms, through
    every non-terminal outcome, up to and including the first terminal
    one. *)
Theorem polling_discipline :
  (forall o, fetch_failed o = true -> poll_complete o = ([], Ret tt)) /\
  (forall o, cleared (fst (poll_complete o)) = terminal o) /\
  (forall jobId o0 rest,
     tick_times (fst (start_polling jobId o0 rest)) =
       map (fun i => 1000 * Z.of_nat i)%Z (seq 0 (length (take_through terminal (o0 :: rest)))) /\
     In (ESetInterval 1000) (fst (start_polling jobId o0 rest)) /\
     cleared (fst (start_polling jobId o0 rest)) = existsb terminal (o0 :: rest)).
Proof.
  split.
  { intros [|c [s|]] H; unfold poll_complete; [reflexivity| |].
    - simpl in H. apply negb_true_iff in H. rewrite H. reflexivity.
    - destruct (is_ok c); reflexivity. }
  split; [exact poll_complete_cleared|].
  intros jobId o0 rest. unfold start_polling, poll_start. cbv zeta.
  rewrite !seq_fst by first [apply poll_complete_ret | reflexivity].
  rewrite !tick_times_app, !cleared_app, poll_complete_ticks, poll_complete_cleared.
  cbn [take_through existsb].
  destruct (terminal o0); cbn.
  - split; [reflexivity|]. split; [tauto|reflexivity].
  - destruct (poll_ticks_spec jobId rest 1) as [H1 H2]. rewrite H1, H2.
    split; [reflexivity|]. split; [tauto|reflexivity].
Qed.

(** ** Submission response shapes *)




(** ** Absent percent *)

(** C9 (counterexample): a "processing" status without percent is shown as
    the number 0 ("Processing… (0%)" and a 0% bar), not as an
    indeterminate marker. *)
Lemma absent_percent_numeric_zero :
  poll_complete (FResponse 200 (Some processing_no_percent)) =
    ([EBar (NFin 0); EStatus (STPollProcessing (NFin 0))], Ret tt).
Proof. reflexivity. Qed.

(** C9 (amended): for a successful status fetch whose percent is absent,
    the client relays the numeric percent 0: the first write sets the bar
    to 0%, the status line shows 0%, and no write touches the
    indeterminate indicator. *)
Theorem absent_percent_zero c s
    (Hc : is_ok c = true) (Hp : ps_percent s = None) :
  hd_error (fst (poll_complete (FResponse c (Some s)))) = Some (EBar (NFin 0)) /\
  In (EStatus (match ps_msg s with
               | Some m => if String.eqb m "" then STPollProcessing (NFin 0)
                           else STPollMsg m (NFin 0)
               | None => STPollProcessing (NFin 0)
               end)) (fst (poll_complete (FResponse c (Some s)))) /\
  Forall is_poll_write (fst (poll_complete (FResponse c (Some s)))).
Proof.
  assert (relay_pct None = NFin 0) as Hz by reflexivity.
  split; [|split; [|apply poll_complete_writes]];
  unfold poll_complete; rewrite Hc; cbn -[relay_pct status_is String.eqb];
  rewrite Hp, Hz;
  destruct (ps_msg s) as [m|]; try destruct (String.eqb m "");
  destruct (status_is s "done"); destruct (status_is s "error"); cbn; tauto.
Qed.

Lemma absent_percent_zero_witness :
  is_ok 200 = true /\ ps_percent processing_no_percent = None /\
  hd_error (fst (poll_complete (FResponse 200 (Some processing_no_percent)))) = Some (EBar (NFin 0)).
Proof.
  split; [reflexivity|]. split; [reflexivity|].
  exact (proj1 (absent_percent_zero 200 processing_no_percent eq_refl eq_refl)).
Defined.

(** ** File names: [extOf] and [strip_ext] *)

Lemma list_ascii_of_string_app a b :
  list_ascii_of_string (a ++ b) = (list_ascii_of_string a ++ list_ascii_of_string b)%list.
Proof. induction a as [|c a IH]; simpl; [reflexivity|]. rewrite IH; reflexivity. Qed.

Lemma split_dot_rev_nodot r rest :
  ~ In "."%char r -> split_dot_rev (r ++ "."%char :: rest)%list = Some (r, rest).
Proof.
  induction r as [|c r IH]; intros H; simpl; [reflexivity|].
  destruct (Ascii.eqb c ".") eqn:E.
  - apply Ascii.eqb_eq in E; subst. exfalso; apply H; left; reflexivity.
  - rewrite IH by (intros H'; apply H; right; exact H'). reflexivity.
Qed.

(** [extOf] and the base name used by the image branch of [convertLocal]:
    for a name [base + "." + e] whose last part [e] is non-empty and free of
    dots, [extOf] is [e] in lower case and [strip_ext] gives back [base],
    whatever dots [base] holds. *)
Theorem extOf_last_dot base e :
  e <> "" -> ~ In "."%char (list_ascii_of_string e) ->
  extOf (base ++ "." ++ e) = toLowerCase e /\ strip_ext (base ++ "." ++ e) = base.
Proof.
  intros Hne Hdot.
  assert (ext_match (base ++ "." ++ e) = Some (base, e)) as Hm.
  { unfold ext_match.
    rewrite !list_ascii_of_string_app. cbn [list_ascii_of_string List.app].
    rewrite rev_app_distr. cbn [rev]. rewrite <- app_assoc. cbn [List.app].
    rewrite split_dot_rev_nodot by (rewrite <- in_rev; exact Hdot).
    destruct (rev (list_ascii_of_string e)) as [|c r] eqn:Er.
    - exfalso; apply Hne. destruct e; [reflexivity|]. simpl in Er.
      apply (f_equal (@length ascii)) in Er. rewrite length_app in Er. simpl in Er. lia.
    - rewrite <- Er, !rev_involutive, !string_of_list_ascii_of_string. reflexivity. }
  unfold extOf, strip_ext. rewrite Hm. split; reflexivity.
Qed.

Lemma extOf_last_dot_witness :
  "GZ" <> "" /\ ~ In "."%char (list_ascii_of_string "GZ") /\
  extOf ("archive.tar" ++ "." ++ "GZ") = "gz" /\ strip_ext ("archive.tar" ++ "." ++ "GZ") = "archive.tar".
Proof.
  assert (H1 : "GZ" <> "") by discriminate.
  assert (H2 : ~ In "."%char (list_ascii_of_string "GZ"))
    by (simpl; intros [H|[H|H]]; [discriminate|discriminate|contradiction]).
  destruct (extOf_last_dot "archive.tar" "GZ" H1 H2) as [Ha Hb].
  split; [exact H1|]. split; [exact H2|]. split; [exact Ha|exact Hb].
Defined.

(** ** Target lists *)

Fixpoint nodupb (xs : list string) : bool :=
  match xs with
  | [] => true
  | x :: xs' => negb (includes xs' x) && nodupb xs'
  end.

Lemma nodupb_NoDup xs : nodupb xs = true -> NoDup xs.
Proof.
  induction xs as [|x xs IH]; simpl; intros H; [constructor|].
  apply andb_true_iff in H as [H1 H2]. apply negb_true_iff in H1.
  constructor; [apply includes_false_not_In; exact H1 | apply IH; exact H2].
Qed.

Lemma NoDup_without ext xs : NoDup xs -> NoDup (without ext xs).
Proof. apply NoDup_filter. Qed.

Lemma includes_without ext xs : includes (without ext xs) ext = false.
Proof.
  induction xs as [|x xs IH]; simpl; [reflexivity|].
  destruct (String.eqb x ext) eqn:E; simpl; [exact IH|].
  unfold includes in *; simpl. rewrite IH, orb_false_r.
  rewrite String.eqb_sym; exact E.
Qed.

Lemma includes_true_In xs x : includes xs x = true -> In x xs.
Proof.
  unfold includes; intros H; apply existsb_exists in H as [y [Hy Hxy]].
  apply String.eqb_eq in Hxy; subst; exact Hy.
Qed.

Lemma known_unknown_doc ext :
  includes KNOWN_IN ext = false ->
  String.eqb ext "pdf" = false /\ guessCategory ext = "doc" /\
  (forall y, In y KNOWN_IN -> String.eqb y ext = false).
Proof.
  intros K.
  assert (Hy : forall y, In y KNOWN_IN -> String.eqb y ext = false).
  { intros y Hy. rewrite String.eqb_sym. exact (includes_In_false _ _ _ K Hy). }
  assert (Hp : String.eqb ext "pdf" = false)
    by (rewrite String.eqb_sym; apply Hy; simpl; tauto).
  unfold KNOWN_IN in K. rewrite !includes_app in K.
  apply orb_false_iff in K as [Ki K]. apply orb_false_iff in K as [Ka K].
  apply orb_false_iff in K as [Kd Kt].
  unfold guessCategory. rewrite Hp, Ki, Ka, Kd, Kt. auto.
Qed.

(** Case analysis on an extension: each extension an input list names is
    checked by evaluation. *)
Ltac known_ext K :=
  apply includes_true_In in K; cbn in K;
  repeat (destruct K as [<-|K]; [vm_compute; reflexivity|]); destruct K.

(** The target list and the suggestion chips never list a format twice,
    for every extension and category. *)
Theorem targets_no_duplicates hasFile ext cat :
  NoDup (pk_options (setSuggestions hasFile ext cat)) /\
  NoDup (pk_chips (setSuggestions hasFile ext cat)).
Proof.
  unfold setSuggestions; cbn [pk_options pk_chips].
  split; [|apply NoDup_filter];
  unfold allTargetsFor, suggestedTargets;
  repeat match goal with |- context [if ?b then _ else _] => destruct b end;
  first [ apply nodupb_NoDup; reflexivity
        | apply NoDup_without, nodupb_NoDup; reflexivity ].
Qed.

(** The target list offered for a file lists the file's own extension only
    for the data formats csv, vcf, srt and vtt; the same holds for the
    suggestion chips. *)
Theorem self_target_only_data ext :
  includes (allTargetsFor ext (guessCategory ext)) ext = includes ["csv";"vcf";"srt";"vtt"] ext /\
  includes (pk_chips (setSuggestions true ext (guessCategory ext))) ext =
    includes ["csv";"vcf";"srt";"vtt"] ext.
Proof.
  destruct (includes KNOWN_IN ext) eqn:K.
  - apply includes_true_In in K; cbn in K.
    repeat (destruct K as [<-|K]; [split; vm_compute; reflexivity|]); destruct K.
  - destruct (known_unknown_doc ext K) as [Hp [Hc Hy]].
    assert (Hr : includes ["csv";"vcf";"srt";"vtt"] ext = false).
    { apply (includes_sub KNOWN_IN); [|exact K].
      intros y Hin; simpl in Hin; simpl; tauto. }
    rewrite Hr, Hc. unfold setSuggestions, allTargetsFor, suggestedTargets.
    rewrite Hp. cbn [String.eqb orb pk_chips].
    split; [apply includes_without|].
    apply (includes_sub (without ext ["pdf";"docx";"pptx";"xlsx";"odt";"odp";"ods"]));
      [|apply includes_without].
    intros y Hin; apply filter_In in Hin; tauto.
Qed.

(** Picking a file preselects a target: for every file name the convert
    button ends up enabled, the selected value is one of the offered
    options, it is the first suggestion chip, and it is never the file's
    own extension (a csv file gets "phonecsv", an mp4 file "webm"). *)
Theorem pick_preselects f :
  let pk := snd (onFilePicked f) in
  pk_disabled pk = false /\
  includes (pk_options pk) (pk_value pk) = true /\
  hd_error (pk_chips pk) = Some (pk_value pk) /\
  String.eqb (pk_value pk) (extOf (file_name f)) = false.
Proof.
  cbn zeta. unfold onFilePicked; cbn [snd].
  generalize (extOf (file_name f)) as ext; intros ext.
  destruct (includes KNOWN_IN ext) eqn:K.
  - apply includes_true_In in K; cbn in K.
    repeat (destruct K as [<-|K]; [vm_compute; repeat split|]); destruct K.
  - destruct (known_unknown_doc ext K) as [Hp [Hc Hy]]. rewrite Hc.
    assert (Hd : forall y, In y DOC_OUT -> String.eqb y ext = false)
      by (intros y Hin; apply Hy; unfold KNOWN_IN; rewrite !in_app_iff; simpl in *; tauto).
    assert (E : allTargetsFor ext "doc" = DOC_OUT)
      by (unfold allTargetsFor; rewrite Hp; cbn -[without DOC_OUT]; apply without_id; exact Hd).
    assert (E2 : suggestedTargets ext "doc" = DOC_OUT)
      by (unfold suggestedTargets; rewrite Hp; cbn -[without]; apply without_id; exact Hd).
    assert (Hv : pk_value (setSuggestions true ext "doc") = "pdf")
      by (unfold setSuggestions; rewrite E, E2; reflexivity).
    repeat split; try (unfold setSuggestions; rewrite E, E2; reflexivity).
    rewrite Hv, String.eqb_sym. exact Hp.
Qed.

(** ** Local capability table against the engine and the target lists *)

Lemma fst_emit_seq {B} e (m : M B) : fst (emit e ;;; m) = e :: fst m.
Proof. unfold bind, emit. destruct m; reflexivity. Qed.

Lemma convertLocal_head P f s t :
  hd_error (fst (convertLocal P f s t)) =
    if String.eqb s "pdf" && includes ["jpg";"png";"webp"] t then Some (EStatus STPreparingPdf)
    else if includes IMAGE_LOCAL_SRC s && includes ["jpg";"png";"webp"] t
    then Some (EStatus STDecoding)
    else None.
Proof.
  unfold convertLocal.
  destruct (String.eqb s "pdf" && includes ["jpg";"png";"webp"] t);
    [rewrite fst_emit_seq; reflexivity|].
  change ["jpg";"jpeg";"png";"webp";"gif";"tiff";"bmp";"ico"] with IMAGE_LOCAL_SRC.
  destruct (includes IMAGE_LOCAL_SRC s && includes ["jpg";"png";"webp"] t);
    [rewrite fst_emit_seq; reflexivity|reflexivity].
Qed.

(** Every source/target pair [LOCAL_OK] allows is a target the page offers
    for that source, and [convertLocal] handles it in one of its two
    branches (the PDF branch for "pdf", the image branch otherwise), so its
    "not supported" error is never reached from the click handler. *)
Theorem local_pairs_supported s t :
  canDoLocal s t = Ret true ->
  includes (allTargetsFor s (guessCategory s)) t = true /\
  forall P f, hd_error (fst (convertLocal P f s t)) =
    Some (EStatus (if String.eqb s "pdf" then STPreparingPdf else STDecoding)).
Proof.
  intros H. unfold canDoLocal, LOCAL_OK_get in H.
  destruct (assoc s LOCAL_OK) as [v|] eqn:E.
  - apply assoc_In in E. cbn in E.
    repeat (destruct E as [E1|E];
      [ inversion E1; subst; cbn in H; injection H as H;
        repeat (apply orb_true_iff in H; destruct H as [H|H]); try discriminate H;
        apply String.eqb_eq in H; subst;
        (split; [vm_compute; reflexivity | intros P f; rewrite convertLocal_head; reflexivity])
      | ]).
    destruct E.
  - destruct (assoc s OBJECT_PROTOTYPE) as [v|] eqn:E2; [|discriminate].
    apply proto_has_no_method in E2.
    destruct v; cbn in E2, H; try discriminate; rewrite E2 in H; discriminate.
Qed.

Lemma local_pairs_supported_witness :
  canDoLocal "ico" "webp" = Ret true /\
  includes (allTargetsFor "ico" (guessCategory "ico")) "webp" = true /\
  hd_error (fst (convertLocal (ok_platform 1) photo_png "ico" "webp")) = Some (EStatus STDecoding).
Proof.
  assert (H : canDoLocal "ico" "webp" = Ret true) by reflexivity.
  destruct (local_pairs_supported "ico" "webp" H) as [H1 H2].
  split; [exact H|]. split; [exact H1|]. exact (H2 (ok_platform 1) photo_png).
Defined.

(** ** [escapeHtml] *)

Lemma html_decode_plain c r :
  Ascii.eqb c "&" = false -> html_decode (c :: r) = c :: html_decode r.
Proof.
  intros H. destruct c as [[] [] [] [] [] [] [] []]; try reflexivity; discriminate.
Qed.

(** The text [escapeHtml] produces holds no [<], [>] or double quote, so
    it can neither open a tag nor close an attribute value, and the
    browser decodes it back to the original string. *)
Theorem escapeHtml_safe s :
  (forall c, In c (list_ascii_of_string (escapeHtml s)) ->
     c <> "<"%char /\ c <> ">"%char /\ c <> DQ) /\
  html_decode (list_ascii_of_string (escapeHtml s)) = list_ascii_of_string s.
Proof.
  induction s as [|c s [IH1 IH2]]; [split; [intros c []|reflexivity]|].
  cbn [escapeHtml list_ascii_of_string]. rewrite list_ascii_of_string_app.
  unfold escape_char. split.
  - intros d Hd. apply in_app_or in Hd as [Hd|Hd]; [|exact (IH1 d Hd)].
    destruct (Ascii.eqb c "&") eqn:E1;
      [cbn in Hd; repeat (destruct Hd as [<-|Hd]; [unfold DQ; repeat split; discriminate|]);
       contradiction|].
    destruct (Ascii.eqb c "<") eqn:E2;
      [cbn in Hd; repeat (destruct Hd as [<-|Hd]; [unfold DQ; repeat split; discriminate|]);
       contradiction|].
    destruct (Ascii.eqb c ">") eqn:E3;
      [cbn in Hd; repeat (destruct Hd as [<-|Hd]; [unfold DQ; repeat split; discriminate|]);
       contradiction|].
    destruct (Ascii.eqb c DQ) eqn:E4;
      [cbn in Hd; repeat (destruct Hd as [<-|Hd]; [unfold DQ; repeat split; discriminate|]);
       contradiction|].
    cbn in Hd. destruct Hd as [<-|[]].
    apply Ascii.eqb_neq in E2, E3, E4. auto.
  - destruct (Ascii.eqb c "&") eqn:E1;
      [apply Ascii.eqb_eq in E1; subst; cbn; rewrite IH2; reflexivity|].
    destruct (Ascii.eqb c "<") eqn:E2;
      [apply Ascii.eqb_eq in E2; subst; cbn; rewrite IH2; reflexivity|].
    destruct (Ascii.eqb c ">") eqn:E3;
      [apply Ascii.eqb_eq in E3; subst; cbn; rewrite IH2; reflexivity|].
    destruct (Ascii.eqb c DQ) eqn:E4;
      [apply Ascii.eqb_eq in E4; subst; cbn; rewrite IH2; reflexivity|].
    cbn [list_ascii_of_string List.app]. rewrite html_decode_plain by exact E1.
    rewrite IH2; reflexivity.
Qed.

(** ** The busy indicator across the end of an upload *)

Definition not_ind (e : event) : Prop :=
  match e with EIndDisplay _ | EIndIndeterminate _ => False | _ => True end.

Lemma display_after_app cur a b :
  display_after cur (a ++ b)%list = display_after (display_after cur a) b.
Proof. revert cur; induction a as [|e a IH]; intros cur; [reflexivity|]. destruct e; apply IH. Qed.

Lemma indeterminate_after_app cur a b :
  indeterminate_after cur (a ++ b)%list = indeterminate_after (indeterminate_after cur a) b.
Proof. revert cur; induction a as [|e a IH]; intros cur; [reflexivity|]. destruct e; apply IH. Qed.

Lemma not_ind_display cur tr : Forall not_ind tr -> display_after cur tr = cur.
Proof.
  revert cur; induction tr as [|e tr IH]; intros cur H; [reflexivity|].
  inversion H; subst. destruct e; try contradiction; apply IH; assumption.
Qed.

Lemma not_ind_indeterminate cur tr : Forall not_ind tr -> indeterminate_after cur tr = cur.
Proof.
  revert cur; induction tr as [|e tr IH]; intros cur H; [reflexivity|].
  inversion H; subst. destruct e; try contradiction; apply IH; assumption.
Qed.

Lemma poll_complete_not_ind o : Forall not_ind (fst (poll_complete o)).
Proof.
  eapply Forall_impl; [|apply poll_complete_writes].
  intros []; cbn; tauto.
Qed.

Lemma poll_ticks_not_ind jobId outs : forall j, Forall not_ind (fst (poll_ticks jobId j outs)).
Proof.
  induction outs as [|o rest IH]; intros j; [constructor|].
  cbn [poll_ticks]. cbv zeta. unfold poll_start.
  rewrite !seq_fst by first [apply poll_complete_ret | reflexivity].
  rewrite !Forall_app.
  split; [split; repeat constructor|split; [apply poll_complete_not_ind|]].
  destruct (cleared (fst (poll_complete o))); [constructor|apply IH].
Qed.

Lemma start_polling_not_ind jobId o0 rest : Forall not_ind (fst (start_polling jobId o0 rest)).
Proof.
  unfold start_polling, poll_start. cbv zeta.
  rewrite !seq_fst by first [apply poll_complete_ret | reflexivity].
  rewrite !Forall_app.
  split; [split; repeat constructor|split; [repeat constructor|split; [apply poll_complete_not_ind|]]].
  destruct (cleared (fst (poll_complete o0))); [constructor|apply poll_ticks_not_ind].
Qed.

(** After [xhr.upload.onload] showed the busy indicator, a network error
    hides it and stops its animation, and so does every response (any status
    and body, followed by any sequence of status polls) except one: a 200 or
    202 response whose body is JSON null, where the handler throws before
    touching the indicator, which stays visible and indeterminate. *)
Theorem indicator_hidden_after_upload_end :
  (forall status body text o0 rest,
     let tr := (fst upload_onload ++ fst (on_submit_done status body text o0 rest))%list in
     let stuck := (((status =? 200) || (status =? 202))%Z && is_json_null body)%bool in
     display_after false tr = stuck /\ indeterminate_after false tr = stuck) /\
  (let tr := (fst upload_onload ++ fst xhr_onerror)%list in
   display_after false tr = false /\ indeterminate_after false tr = false).
Proof.
  split; [|split; reflexivity].
  intros status body text o0 rest. cbv zeta.
  rewrite display_after_app, indeterminate_after_app.
  unfold on_submit_done.
  destruct ((status =? 200)%Z || (status =? 202)%Z); cbn [andb]; [|split; reflexivity].
  destruct body as [| |b]; cbn [is_json_null]; [| split; reflexivity |];
    (destruct (negb (truthy_str (job_of _))); [split; reflexivity|]);
    rewrite !fst_emit_seq; cbn;
    rewrite not_ind_display, not_ind_indeterminate by apply start_polling_not_ind;
    split; reflexivity.
Qed.

(** ** One outcome per click *)

Lemma click_remote P toggle f target :
  String.eqb target "" = false ->
  (toggle = false \/ canDoLocal (extOf (file_name f)) target = Ret false) ->
  click P false toggle (Some f) target =
    ([EResult RNone; EStatus STEmpty; EBar (NFin 0); EIndDisplay false;
      EIndIndeterminate false; EStatus STUploading;
      EXhrSend [("file", file_name f); ("target", target)]], Ret tt).
Proof.
  intros Ht Hl. unfold click.
  cbn -[convertLocal String.eqb canDoLocal extOf]. rewrite Ht.
  destruct Hl as [->|Hc]; [reflexivity|].
  destruct toggle; [|reflexivity].
  cbn -[convertLocal String.eqb canDoLocal extOf]. rewrite Hc. reflexivity.
Qed.

(** A click on the enabled convert button with a file and a target, when
    [canDoLocal] does not throw, ends normally with exactly one outcome:
    either one upload is sent and no local result is shown, or no upload is
    sent and the last write shows the local result. *)
Theorem click_single_outcome P toggle f target :
  target <> "" ->
  (toggle = false \/ exists b, canDoLocal (extOf (file_name f)) target = Ret b) ->
  let r := click P false toggle (Some f) target in
  snd r = Ret tt /\
  ((count_sends (fst r) = 1%nat /\ forall u n, ~ In (EResult (RLocalDone u n)) (fst r)) \/
   (count_sends (fst r) = 0%nat /\ exists u n, last (fst r) EWarn = EResult (RLocalDone u n))).
Proof.
  intros Ht Hl. cbv zeta.
  apply String.eqb_neq in Ht.
  assert (Hrem : toggle = false \/ canDoLocal (extOf (file_name f)) target = Ret false ->
    snd (click P false toggle (Some f) target) = Ret tt /\
    ((count_sends (fst (click P false toggle (Some f) target)) = 1%nat /\
      forall u n, ~ In (EResult (RLocalDone u n)) (fst (click P false toggle (Some f) target))) \/
     (count_sends (fst (click P false toggle (Some f) target)) = 0%nat /\
      exists u n, last (fst (click P false toggle (Some f) target)) EWarn = EResult (RLocalDone u n)))).
  { intros H. rewrite (click_remote P toggle f target Ht H). split; [reflexivity|].
    left; split; [reflexivity|]. intros u n Hin; cbn in Hin.
    repeat (destruct Hin as [Hin|Hin]; [discriminate|]); contradiction. }
  destruct toggle; [|apply Hrem; left; reflexivity].
  destruct Hl as [Hl|[[|] Hc]]; [discriminate| |apply Hrem; right; exact Hc].
  destruct (convertLocal P f (extOf (file_name f)) target) as [w [out|e]] eqn:Hcl.
  - pose proof (convertLocal_progress P f (extOf (file_name f)) target) as Hp.
    rewrite Hcl in Hp; cbn in Hp.
    rewrite (click_local_ok P f target w out Ht Hc Hcl). cbn [fst snd]. split; [reflexivity|].
    right. split.
    + rewrite !count_sends_app, (progress_no_sends w Hp). reflexivity.
    + exists (out_url out), (out_filename out).
      rewrite app_assoc, last_last. reflexivity.
  - pose proof (convertLocal_progress P f (extOf (file_name f)) target) as Hp.
    rewrite Hcl in Hp; cbn in Hp.
    apply String.eqb_neq in Ht.
    rewrite (click_local_throw P f target w e Ht Hc Hcl). cbn [fst snd]. split; [reflexivity|].
    left. split.
    + rewrite !count_sends_app, (progress_no_sends w Hp). reflexivity.
    + intros u n Hin. apply in_app_or in Hin as [Hin|Hin].
      * cbn in Hin. repeat (destruct Hin as [Hin|Hin]; [discriminate|]); contradiction.
      * apply in_app_or in Hin as [Hin|Hin].
        -- exact (progress_no_result w _ Hp Hin).
        -- cbn in Hin. repeat (destruct Hin as [Hin|Hin]; [discriminate|]); contradiction.
Qed.

Lemma click_single_outcome_witness :
  "webp" <> "" /\ (true = false \/ exists b, canDoLocal (extOf (file_name photo_png)) "webp" = Ret b) /\
  snd (click (ok_platform 1) false true (Some photo_png) "webp") = Ret tt.
Proof.
  assert (H1 : "webp" <> "") by discriminate.
  assert (H2 : true = false \/ exists b, canDoLocal (extOf (file_name photo_png)) "webp" = Ret b)
    by (right; exists true; reflexivity).
  split; [exact H1|]. split; [exact H2|].
  exact (proj1 (click_single_outcome (ok_platform 1) true photo_png "webp" H1 H2)).
Defined.

(** * Cookie banner *)

(** The cookie strings the page writes and reads, as the browser parses them. *)

Lemma str_app_assoc (a b c : string) : a ++ (b ++ c) = (a ++ b) ++ c.
Proof. induction a as [|x a IH]; cbn; [reflexivity|now rewrite IH]. Qed.

Lemma str_app_nil_r (a : string) : a ++ "" = a.
Proof. induction a as [|x a IH]; cbn; [reflexivity|now rewrite IH]. Qed.

Lemma no_char_app d a b : no_char d (a ++ b) = no_char d a && no_char d b.
Proof. unfold no_char. now rewrite list_ascii_of_string_app, forallb_app. Qed.

Lemma no_char_cons d c s : no_char d (String c s) = negb (Ascii.eqb c d) && no_char d s.
Proof. reflexivity. Qed.

Lemma drop_ws_id l : ends_ok l = true -> drop_ws l = l.
Proof. destruct l as [|c l]; cbn [ends_ok drop_ws]; [reflexivity|]. now destruct (is_ws c). Qed.

Lemma trim_id s :
  ends_ok (list_ascii_of_string s) = true ->
  ends_ok (rev (list_ascii_of_string s)) = true -> trim s = s.
Proof.
  intros H1 H2. unfold trim. rewrite (drop_ws_id _ H1), (drop_ws_id _ H2), rev_involutive.
  apply string_of_list_ascii_of_string.
Qed.

Lemma trim_space s : trim (String " " s) = trim s.
Proof. reflexivity. Qed.

Lemma split_on_nosep sep a : no_char sep a = true -> split_on sep a = [a].
Proof.
  induction a as [|c a IH]; cbn; [reflexivity|].
  intros H. apply andb_true_iff in H as [Hc Ha].
  rewrite (IH Ha). destruct (Ascii.eqb c sep); [discriminate|reflexivity].
Qed.

Lemma split_on_app sep a b :
  no_char sep a = true -> split_on sep (a ++ String sep b) = a :: split_on sep b.
Proof.
  induction a as [|c a IH]; intros H.
  - cbn. now rewrite Ascii.eqb_refl.
  - apply andb_true_iff in H as [Hc Ha]. cbn. rewrite (IH Ha).
    destruct (Ascii.eqb c sep); [discriminate|reflexivity].
Qed.

Lemma split_first_app sep a b :
  no_char sep a = true -> split_first sep (a ++ String sep b) = Some (a, b).
Proof.
  induction a as [|c a IH]; intros H.
  - cbn. now rewrite Ascii.eqb_refl.
  - apply andb_true_iff in H as [Hc Ha]. cbn. rewrite (IH Ha).
    destruct (Ascii.eqb c sep); [discriminate|reflexivity].
Qed.

Lemma uri_encode_char_safe c : forallb safe_char (list_ascii_of_string (uri_encode_char c)) = true.
Proof. destruct c as [[] [] [] [] [] [] [] []]; vm_compute; reflexivity. Qed.

Lemma encodeURIComponent_safe v : forallb safe_char (list_ascii_of_string (encodeURIComponent v)) = true.
Proof.
  induction v as [|c v IH]; [reflexivity|].
  cbn [encodeURIComponent]. rewrite list_ascii_of_string_app, forallb_app, IH.
  now rewrite uri_encode_char_safe.
Qed.

Lemma safe_no_char d s :
  (d = ";" \/ d = "=")%char ->
  forallb safe_char (list_ascii_of_string s) = true -> no_char d s = true.
Proof.
  intros Hd H. unfold no_char. rewrite forallb_forall in *. intros c Hc.
  specialize (H c Hc). unfold safe_char in H.
  destruct Hd as [->| ->]; destruct (Ascii.eqb c ";"), (Ascii.eqb c "="); easy.
Qed.

Lemma safe_ends l : forallb safe_char l = true -> ends_ok l = true.
Proof.
  destruct l as [|c l]; cbn [ends_ok forallb]; [reflexivity|].
  unfold safe_char. destruct (Ascii.eqb c ";"), (Ascii.eqb c "="), (is_ws c); easy.
Qed.

Lemma safe_trim s : forallb safe_char (list_ascii_of_string s) = true -> trim s = s.
Proof.
  intros H. apply trim_id; apply safe_ends; [assumption|].
  rewrite forallb_forall in *. intros c Hc. apply H, in_rev, Hc.
Qed.

Lemma string_of_uint_safe u : forallb safe_char (list_ascii_of_string (string_of_uint u)) = true.
Proof. induction u; cbn; try rewrite IHu; reflexivity. Qed.

Lemma parse_digits_uint u acc :
  parse_digits acc (string_of_uint u) = Some (Nat.of_uint_acc u acc).
Proof.
  revert acc; induction u; intros acc; cbn [string_of_uint]; try reflexivity;
  simpl; rewrite IHu; cbn [Nat.of_uint_acc];
  rewrite Nat.tail_mul_spec; f_equal; f_equal; cbn; lia.
Qed.

Lemma string_of_Z_safe z : forallb safe_char (list_ascii_of_string (string_of_Z z)) = true.
Proof.
  destruct z; cbn [string_of_Z]; unfold string_of_nat; try apply string_of_uint_safe.
  all: try (rewrite list_ascii_of_string_app, forallb_app, string_of_uint_safe; reflexivity).
Qed.

Lemma parse_max_age_nat n : parse_max_age (string_of_nat n) = Some (Z.of_nat n).
Proof.
  unfold string_of_nat. rewrite <- (DecimalNat.Unsigned.of_to n) at 2.
  destruct (Nat.to_uint n) as [| u | u | u | u | u | u | u | u | u | u] eqn:E.
  1: { exfalso. pose proof (DecimalNat.Unsigned.of_to n) as H. rewrite E in H.
        cbn in H. subst n. discriminate E. }
  all: simpl; rewrite parse_digits_uint; reflexivity.
Qed.

Lemma max_age_cons a rest :
  max_age (a :: rest) =
  match max_age rest with
  | Some m => Some m
  | None =>
      match split_first "=" a with
      | Some (k, v) =>
          if String.eqb (toLowerCase (trim k)) "max-age" then parse_max_age (trim v) else None
      | None => None
      end
  end.
Proof. reflexivity. Qed.

Lemma max_age_setCookie z :
  (0 < z)%Z ->
  max_age [" Max-Age=" ++ string_of_Z z; " Path=/"; " SameSite=Lax"] = Some z.
Proof.
  intros Hz. rewrite max_age_cons.
  assert (E : max_age [" Path=/"; " SameSite=Lax"] = None) by reflexivity.
  rewrite E. change (" Max-Age=" ++ string_of_Z z) with (" Max-Age" ++ String "=" (string_of_Z z)).
  rewrite split_first_app by reflexivity.
  assert (G : String.eqb (toLowerCase (trim " Max-Age")) "max-age" = true) by reflexivity.
  rewrite G, safe_trim by apply string_of_Z_safe.
  destruct z as [|p|p]; try lia. cbn [string_of_Z]. rewrite parse_max_age_nat.
  f_equal. apply Z2Nat.id. lia.
Qed.

Lemma setCookie_split name value days :
  no_char ";" name = true ->
  split_on ";" (setCookie name value days) =
  [name ++ "=" ++ encodeURIComponent value;
   " Max-Age=" ++ string_of_Z (days * 24 * 60 * 60); " Path=/"; " SameSite=Lax"].
Proof.
  intros H.
  assert (E : setCookie name value days =
    (name ++ "=" ++ encodeURIComponent value) ++ String ";"
      ((" Max-Age=" ++ string_of_Z (days * 24 * 60 * 60)) ++ String ";" " Path=/; SameSite=Lax")).
  { unfold setCookie. rewrite <- !str_app_assoc. reflexivity. }
  rewrite E, split_on_app, split_on_app; [reflexivity| |].
  - rewrite no_char_app. apply andb_true_iff; split; [reflexivity|].
    apply safe_no_char; [now left|apply string_of_Z_safe].
  - rewrite !no_char_app, H. cbn [andb].
    apply safe_no_char; [now left|apply encodeURIComponent_safe].
Qed.

Lemma name_okb_parts n :
  name_okb n = true ->
  n <> "" /\ no_char ";" n = true /\ no_char "=" n = true /\
  ends_ok (list_ascii_of_string n) = true /\ ends_ok (rev (list_ascii_of_string n)) = true.
Proof.
  unfold name_okb. rewrite !andb_true_iff, negb_true_iff, String.eqb_neq. tauto.
Qed.

Lemma cookie_write_setCookie jar name value days :
  name_okb name = true -> (0 < days)%Z ->
  cookie_write jar (setCookie name value days) =
  jar_upsert name (encodeURIComponent value) jar.
Proof.
  intros Hn Hd. apply name_okb_parts in Hn as (Hne & Hsc & Heq & Hl & Hr).
  unfold cookie_write. rewrite setCookie_split by exact Hsc.
  change ("=" ++ encodeURIComponent value) with (String "=" (encodeURIComponent value)).
  rewrite split_first_app by exact Heq.
  rewrite max_age_setCookie by lia.
  assert (Hp : (days * 24 * 60 * 60 <=? 0)%Z = false) by (apply Z.leb_gt; lia).
  rewrite Hp, trim_id by assumption.
  rewrite safe_trim by apply encodeURIComponent_safe. reflexivity.
Qed.

Lemma concat_cons2 x y ys :
  String.concat "; " (x :: y :: ys) = x ++ String ";" (String " " (String.concat "; " (y :: ys))).
Proof. reflexivity. Qed.

Lemma split_on_space s :
  split_on ";" (String " " s) =
  match split_on ";" s with p :: ps => String " " p :: ps | [] => [String " " ""] end.
Proof. reflexivity. Qed.

Lemma split_concat l :
  Forall (fun r => no_char ";" r = true) l ->
  split_on ";" (String.concat "; " l) =
  match l with [] => [""] | x :: xs => x :: map (String " ") xs end.
Proof.
  induction l as [|x xs IH]; intros HF; [reflexivity|].
  inversion HF as [|? ? Hx Hxs]; subst.
  destruct xs as [|y ys].
  - change (String.concat "; " [x]) with x. now rewrite split_on_nosep.
  - rewrite concat_cons2, split_on_app by exact Hx. rewrite split_on_space, (IH Hxs).
    reflexivity.
Qed.

Lemma safe_rev l : forallb safe_char l = true -> forallb safe_char (rev l) = true.
Proof.
  rewrite !forallb_forall. intros H c Hc. apply H, in_rev, Hc.
Qed.

Lemma trim_pair p :
  name_okb (fst p) && value_okb (snd p) = true -> trim (cookie_pair p) = cookie_pair p.
Proof.
  destruct p as [n v]. cbn [fst snd]. intros H. apply andb_true_iff in H as [Hn Hv].
  apply name_okb_parts in Hn as (Hne & _ & _ & Hl & _).
  unfold value_okb in Hv. apply andb_true_iff in Hv as [_ Hv].
  unfold cookie_pair; cbn [fst snd].
  apply trim_id; rewrite !list_ascii_of_string_app.
  - destruct n as [|c n']; [congruence|]. exact Hl.
  - cbn [list_ascii_of_string]. rewrite !rev_app_distr. cbn [rev app].
    destruct (rev (list_ascii_of_string v)) as [|c r]; [reflexivity|exact Hv].
Qed.

Lemma prefix_pair a b y :
  no_char "=" a = true -> no_char "=" b = true ->
  String.prefix (a ++ "=") (b ++ String "=" y) = String.eqb b a.
Proof.
  revert b; induction a as [|c a IH]; intros b Ha Hb.
  - destruct b as [|d b].
    { cbn [String.append String.prefix String.eqb].
      destruct (ascii_dec "=" "="); [destruct y; reflexivity|congruence]. }
    rewrite no_char_cons in Hb. apply andb_true_iff in Hb as [Hd _].
    cbn [String.append String.prefix String.eqb].
    destruct (ascii_dec "=" d) as [<-|]; [discriminate|reflexivity].
  - rewrite no_char_cons in Ha. apply andb_true_iff in Ha as [Hc Ha].
    destruct b as [|d b].
    + cbn [String.append String.prefix String.eqb].
      destruct (ascii_dec c "=") as [->|]; [discriminate|reflexivity].
    + rewrite no_char_cons in Hb. apply andb_true_iff in Hb as [_ Hb].
      cbn [String.append String.prefix String.eqb].
      destruct (ascii_dec c d) as [<-|Ne].
      * rewrite Ascii.eqb_refl, (IH b Ha Hb). reflexivity.
      * apply Ascii.eqb_neq in Ne. rewrite Ascii.eqb_sym, Ne. reflexivity.
Qed.

Lemma find_map {A B} (f : B -> bool) (g : A -> B) l :
  find f (map g l) = option_map g (find (fun x => f (g x)) l).
Proof. induction l as [|x l IH]; cbn; [reflexivity|]. now destruct (f (g x)). Qed.

Lemma find_ext_in {A} (f g : A -> bool) l :
  (forall x, In x l -> f x = g x) -> find f l = find g l.
Proof.
  induction l as [|x l IH]; intros H; cbn; [reflexivity|].
  rewrite (H x (or_introl eq_refl)), IH; [reflexivity|]. intros y Hy; apply H; now right.
Qed.

Lemma jar_upsert_find name v j :
  find (fun p => String.eqb (fst p) name) (jar_upsert name v j) = Some (name, v).
Proof.
  unfold jar_upsert. destruct (existsb _ j) eqn:E.
  - induction j as [|p j IH]; cbn in *; [discriminate|].
    destruct (String.eqb (fst p) name) eqn:Ep; cbn.
    + now rewrite String.eqb_refl.
    + rewrite Ep. apply IH, E.
  - induction j as [|p j IH]; cbn in *.
    + now rewrite String.eqb_refl.
    + destruct (String.eqb (fst p) name); [discriminate|]. apply IH, E.
Qed.

Lemma jar_upsert_ok name v j :
  name_okb name = true -> value_okb v = true -> jar_ok j = true ->
  jar_ok (jar_upsert name v j) = true.
Proof.
  intros Hn Hv Hj. unfold jar_ok, jar_upsert in *. destruct (existsb _ j).
  - rewrite forallb_forall in *. intros x Hx. apply in_map_iff in Hx as [p [<- Hp]].
    destruct (String.eqb (fst p) name); cbn [fst snd]; [now rewrite Hn, Hv|apply Hj, Hp].
  - rewrite forallb_app, Hj. cbn. now rewrite Hn, Hv.
Qed.

Lemma encodeURIComponent_value_ok v : value_okb (encodeURIComponent v) = true.
Proof.
  unfold value_okb. pose proof (encodeURIComponent_safe v) as H.
  rewrite safe_no_char by (now left || exact H). cbn [andb].
  apply safe_ends, safe_rev, H.
Qed.

Lemma getCookie_read name v j :
  jar_ok j = true -> name_okb name = true -> no_char "=" v = true ->
  find (fun p => String.eqb (fst p) name) j = Some (name, v) ->
  getCookie name (cookie_read j) = Some v.
Proof.
  intros Hj Hn Hv Hf. pose proof Hn as (_ & _ & Hne & _ & _)%name_okb_parts.
  unfold jar_ok in Hj. rewrite forallb_forall in Hj.
  unfold getCookie, cookie_read. rewrite split_concat.
  2: { apply Forall_forall. intros r Hr. apply in_map_iff in Hr as [p [<- Hp]].
       specialize (Hj p Hp). apply andb_true_iff in Hj as [Hpn Hpv].
       apply name_okb_parts in Hpn as (_ & Hpn & _).
       unfold value_okb in Hpv. apply andb_true_iff in Hpv as [Hpv _].
       unfold cookie_pair. now rewrite !no_char_app, Hpn, Hpv. }
  destruct j as [|p0 j']; [discriminate Hf|].
  assert (Em : trim (cookie_pair p0) :: map trim (map (String " ") (map cookie_pair j')) =
               map cookie_pair (p0 :: j')).
  { cbn [map]. f_equal; [apply trim_pair, Hj; now left|].
    rewrite !map_map. apply map_ext_in. intros p Hp. rewrite trim_space.
    apply trim_pair, Hj. now right. }
  cbn [map] in Em |- *. rewrite Em.
  change (cookie_pair p0 :: map cookie_pair j') with (map cookie_pair (p0 :: j')).
  rewrite find_map.
  rewrite (find_ext_in _ (fun p => String.eqb (fst p) name)), Hf.
  - cbn [option_map]. unfold cookie_pair; cbn [fst snd].
    change ("=" ++ v) with (String "=" v).
    rewrite split_on_app, split_on_nosep by assumption. reflexivity.
  - intros p Hp. specialize (Hj p Hp). apply andb_true_iff in Hj as [Hpn _].
    apply name_okb_parts in Hpn as (_ & _ & Hpe & _).
    unfold cookie_pair. change ("=" ++ snd p) with (String "=" (snd p)).
    now apply prefix_pair.
Qed.

Lemma cookie_roundtrip_core jar name value days :
  jar_ok jar = true -> name_okb name = true -> (0 < days)%Z ->
  getCookie name (cookie_read (cookie_write jar (setCookie name value days))) =
  Some (encodeURIComponent value).
Proof.
  intros Hj Hn Hd. rewrite cookie_write_setCookie by assumption.
  apply getCookie_read.
  - apply jar_upsert_ok; [exact Hn|apply encodeURIComponent_value_ok|exact Hj].
  - exact Hn.
  - apply safe_no_char; [now right|apply encodeURIComponent_safe].
  - apply jar_upsert_find.
Qed.

(** Cookie round trip: once [setCookie name value days] has been assigned to
    [document.cookie] with a positive number of days, [getCookie name] reads
    back [encodeURIComponent value], the encoded text and not [value] itself,
    whatever well-formed cookies the store held before. *)
Theorem cookie_roundtrip (jar0 : Jar) (name value : string) (days : Z) :
  jar_ok jar0 = true -> name_okb name = true -> (0 < days)%Z ->
  getCookie name (cookie_read (cookie_write jar0 (setCookie name value days))) =
  Some (encodeURIComponent value).
Proof. apply cookie_roundtrip_core. Qed.

Lemma cookie_roundtrip_witness :
  jar_ok [("lang", "en"); ("theme", "dark")] = true /\ name_okb "consent" = true /\
  (0 < 180)%Z /\
  getCookie "consent" (cookie_read (cookie_write [("lang", "en"); ("theme", "dark")]
    (setCookie "consent" "a b" 180))) = Some (encodeURIComponent "a b").
Proof.
  assert (H1 : jar_ok [("lang", "en"); ("theme", "dark")] = true) by reflexivity.
  assert (H2 : name_okb "consent" = true) by reflexivity.
  assert (H3 : (0 < 180)%Z) by lia.
  split; [exact H1|]. split; [exact H2|]. split; [exact H3|].
  exact (cookie_roundtrip _ "consent" "a b" 180 H1 H2 H3).
Defined.

(** Consent flow: after Accept the next page load finds [consent=accept]
    and does not show the banner; Decline and Escape write no cookie, so
    the next page load shows the banner exactly when this one did. *)
Theorem consent_flow (jar0 : Jar) :
  jar_ok jar0 = true ->
  getCookie "consent" (cookie_read (jar (accept_click (showBannerIfNeeded jar0)))) =
    Some "accept" /\
  banner_shown (showBannerIfNeeded (jar (accept_click (showBannerIfNeeded jar0)))) = false /\
  banner_shown (showBannerIfNeeded (jar (decline_click (showBannerIfNeeded jar0)))) =
    banner_shown (showBannerIfNeeded jar0) /\
  banner_shown (showBannerIfNeeded (jar (escape_key (showBannerIfNeeded jar0)))) =
    banner_shown (showBannerIfNeeded jar0).
Proof.
  intros Hj.
  assert (E : getCookie "consent" (cookie_read (jar (accept_click (showBannerIfNeeded jar0)))) =
              Some "accept").
  { unfold accept_click; cbn [jar].
    exact (cookie_roundtrip_core jar0 "consent" "accept" 180 Hj eq_refl eq_refl). }
  split; [exact E|]. split.
  - unfold showBannerIfNeeded at 1. cbn [banner_shown]. rewrite E. reflexivity.
  - split; [reflexivity|].
    assert (J : jar (escape_key (showBannerIfNeeded jar0)) = jar0)
      by (unfold escape_key; destruct (banner_shown _); reflexivity).
    rewrite J. reflexivity.
Qed.

Lemma consent_flow_witness :
  jar_ok [("lang", "en")] = true /\
  banner_shown (showBannerIfNeeded (jar (accept_click (showBannerIfNeeded [("lang", "en")])))) =
    false.
Proof.
  assert (H : jar_ok [("lang", "en")] = true) by reflexivity.
  split; [exact H|]. exact (proj1 (proj2 (consent_flow _ H))).
Defined.

(** * Target picker *)

Lemma In_includes_true xs x : In x xs -> includes xs x = true.
Proof.
  intros H. unfold includes. apply existsb_exists. exists x. split; [exact H|].
  apply String.eqb_refl.
Qed.

Lemma without_nonempty ext a b xs : In a xs -> In b xs -> a <> b -> without ext xs <> [].
Proof.
  intros Ha Hb Hab E. destruct (String.eqb a ext) eqn:Ea.
  - apply String.eqb_eq in Ea; subst ext.
    assert (Hin : In b (without a xs)).
    { apply filter_In. split; [exact Hb|]. apply negb_true_iff, String.eqb_neq. congruence. }
    rewrite E in Hin. destruct Hin.
  - assert (Hin : In a (without ext xs)) by (apply filter_In; split; [exact Ha|now rewrite Ea]).
    rewrite E in Hin. destruct Hin.
Qed.

Ltac concrete_nonempty Hx :=
  vm_compute in Hx; repeat (destruct Hx as [<-|Hx]; [discriminate|]); destruct Hx.

Lemma allTargetsFor_shape ext cat :
  allTargetsFor ext cat <> [] /\ (forall x, In x (allTargetsFor ext cat) -> x <> "").
Proof.
  unfold allTargetsFor.
  destruct (String.eqb ext "pdf").
  { split; [vm_compute; discriminate|]. intros x Hx. concrete_nonempty Hx. }
  destruct (String.eqb cat "image").
  { split; [apply (without_nonempty _ "jpg" "png"); [vm_compute; tauto..|discriminate]|].
    intros x Hx. apply filter_In in Hx as [Hx _]. concrete_nonempty Hx. }
  destruct (String.eqb cat "video" || String.eqb cat "audio").
  { split; [apply (without_nonempty _ "mp3" "wav"); [vm_compute; tauto..|discriminate]|].
    intros x Hx. apply filter_In in Hx as [Hx _]. concrete_nonempty Hx. }
  destruct (String.eqb cat "data").
  { split; [vm_compute; discriminate|]. intros x Hx. concrete_nonempty Hx. }
  split; [apply (without_nonempty _ "pdf" "docx"); [vm_compute; tauto..|discriminate]|].
  intros x Hx. apply filter_In in Hx as [Hx _]. concrete_nonempty Hx.
Qed.

Lemma setSuggestions_inv ext cat : picker_inv (setSuggestions true ext cat).
Proof.
  destruct (allTargetsFor_shape ext cat) as [Hne Hx].
  unfold setSuggestions, picker_inv; cbn [pk_chips pk_options pk_value pk_disabled].
  assert (Hc : forall x, In x (filter (includes (allTargetsFor ext cat)) (suggestedTargets ext cat)) ->
               In x (allTargetsFor ext cat))
    by (intros x H; apply filter_In in H as [_ H]; apply includes_true_In, H).
  split; [exact Hc|]. split; [exact Hx|]. split; [|reflexivity].
  destruct (filter (includes (allTargetsFor ext cat)) (suggestedTargets ext cat)) as [|c cs].
  - destruct (allTargetsFor ext cat) as [|o os]; [congruence|now left].
  - apply Hc. now left.
Qed.

Lemma picker_step_inv pk a : picker_inv pk -> picker_inv (picker_step pk a).
Proof.
  intros (Hc & Hx & Hv & Hd). destruct a as [i|i]; cbn [picker_step].
  - destruct (nth_error (pk_chips pk) i) as [fmt|] eqn:E; [|exact (conj Hc (conj Hx (conj Hv Hd)))].
    assert (Hf : In fmt (pk_options pk)) by (apply Hc, nth_error_In with i, E).
    unfold chip_click. rewrite (In_includes_true _ _ Hf).
    unfold picker_inv; cbn [pk_chips pk_options pk_value pk_disabled]. tauto.
  - unfold select_option.
    destruct (nth_error (pk_options pk) i) as [v|] eqn:E; [|exact (conj Hc (conj Hx (conj Hv Hd)))].
    unfold picker_inv; cbn [pk_chips pk_options pk_value pk_disabled].
    split; [exact Hc|]. split; [exact Hx|]. split; [|reflexivity].
    apply nth_error_In with i, E.
Qed.

Lemma picker_steps_inv acts pk : picker_inv pk -> picker_inv (fold_left picker_step acts pk).
Proof.
  revert pk; induction acts as [|a acts IH]; intros pk H; [exact H|].
  cbn [fold_left]. apply IH, picker_step_inv, H.
Qed.

(** Target picker: after a file is picked, whatever chips the user clicks
    and options the user selects, the select's value is one of its
    options and the Convert button is enabled. *)
Theorem picker_stays_ready (f : File) (acts : list picker_action) :
  let pk := fold_left picker_step acts (snd (onFilePicked f)) in
  includes (pk_options pk) (pk_value pk) = true /\ pk_disabled pk = false.
Proof.
  cbn zeta. unfold onFilePicked; cbn [snd].
  destruct (picker_steps_inv acts _ (setSuggestions_inv (extOf (file_name f))
              (guessCategory (extOf (file_name f))))) as (_ & Hx & Hv & Hd).
  split; [apply In_includes_true, Hv|].
  rewrite Hd. unfold enableConvertIfReady.
  pose proof (Hx _ Hv) as Hne. apply String.eqb_neq in Hne. rewrite Hne. reflexivity.
Qed.

(** * PDF pages after a failure *)

Lemma pdf_pages_fail P t pages blob_of j e :
  (forall i, (i < j)%nat ->
     getPage P i = Ret tt /\ renderPage P i = Ret tt /\
     toBlob P (CPage i) (mime_of t) (quality_of (mime_of t)) = Ret (blob_of i)) ->
  getPage P j = Throw e \/
  (getPage P j = Ret tt /\ renderPage P j = Throw e) \/
  (getPage P j = Ret tt /\ renderPage P j = Ret tt /\
   toBlob P (CPage j) (mime_of t) (quality_of (mime_of t)) = Throw e) ->
  forall k i done zip, (i <= j < i + k)%nat ->
  pdf_pages P t pages k i done zip = (pdf_progress_events pages done (j - i), Throw e).
Proof.
  intros Hok Hfail k. induction k as [|k IH]; intros i done zip Hij; [lia|].
  cbn [pdf_pages]. destruct (Nat.eq_dec i j) as [->|Hne].
  - rewrite Nat.sub_diag.
    destruct Hfail as [H|[[H1 H2]|[H1 [H2 H3]]]];
      [rewrite H | rewrite H1, H2 | rewrite H1, H2, H3]; reflexivity.
  - destruct (Hok i) as [Hg [Hr Hb]]; [lia|]. rewrite Hg, Hr, Hb.
    cbn -[pdf_pages pdf_pct pdf_progress_events]. rewrite (IH (S i)) by lia.
    replace (j - i)%nat with (S (j - S i)) by lia. reflexivity.
Qed.

(** A PDF page that fails: when page [j] of an [n]-page PDF is the first
    whose [getPage], [render] or [toBlob] rejects, the local engine rejects
    with that error after reporting progress for exactly the [j - 1] pages
    before it, never for page [j] or a later one. *)
Theorem pdf_page_failure P f t b n blob_of j e :
  includes ["jpg";"png";"webp"] t = true ->
  arrayBuffer P f = Ret b ->
  getDocument P b = Ret n ->
  (1 <= j <= n)%nat ->
  (forall i, (i < j)%nat ->
     getPage P i = Ret tt /\ renderPage P i = Ret tt /\
     toBlob P (CPage i) (mime_of t) (quality_of (mime_of t)) = Ret (blob_of i)) ->
  getPage P j = Throw e \/
  (getPage P j = Ret tt /\ renderPage P j = Throw e) \/
  (getPage P j = Ret tt /\ renderPage P j = Ret tt /\
   toBlob P (CPage j) (mime_of t) (quality_of (mime_of t)) = Throw e) ->
  convertLocal P f "pdf" t =
    (EStatus STPreparingPdf :: pdf_progress_events n 0 (j - 1), Throw e).
Proof.
  intros Ht Ha Hd Hj Hok Hfail.
  unfold convertLocal. rewrite Ht, String.eqb_refl. cbn [andb].
  cbn -[pdf_pages replace_pdf_suffix]. rewrite Ha.
  cbn -[pdf_pages replace_pdf_suffix]. rewrite Hd.
  cbn -[pdf_pages replace_pdf_suffix].
  rewrite (pdf_pages_fail P t n blob_of j e Hok Hfail n 1 0 []) by lia.
  cbn -[pdf_progress_events]. reflexivity.
Qed.

Lemma pdf_page_failure_witness :
  convertLocal (render_failing_platform 4 3) report_pdf "pdf" "png" =
    (EStatus STPreparingPdf :: pdf_progress_events 4 0 2, Throw (JSError "Rendering failed.")).
Proof.
  apply (pdf_page_failure (render_failing_platform 4 3) report_pdf "png" 0 4
           (fun i => "page" ++ string_of_nat i) 3 (JSError "Rendering failed."));
    try reflexivity.
  - lia.
  - intros i Hi. cbn. assert (Hb : Nat.eqb i 3 = false) by (apply Nat.eqb_neq; lia).
    rewrite Hb. repeat split.
  - right; left. split; reflexivity.
Defined.
